(** * Stale-branch scanner for a Bitbucket workspace (main.go)

    A shallow embedding of [main.go]: the three API calls of
    [BitbucketClient], the staleness test [CheckIfStale], the deletion
    routine [DeleteBranch] with its protected-branch loop, and the
    orchestrator [ListStaleBranches].

    - [int64] values ([time.Duration]) are [Z] with the wrap-around written
      out ([wrap64]);
    - [float64] values are [spec_float] at precision 53, the executable
      IEEE-754 binary64 specification of the Standard Library;
    - [map[string]interface{}] is a [gmap] from strings to values;
    - the HTTP service, the wall clock and the console are threaded through
      a small state monad [M] that can also panic (failed type assertion). *)

From Stdlib Require Import ZArith Lia SpecFloat.
From stdpp Require Import base option list strings gmap.

Local Open Scope Z_scope.

(** ** float64 *)

Module F64.

Definition prec : Z := 53.
Definition emax : Z := 1024.

Definition t : Type := spec_float.

(** [float64(n)] for an integer [n]. *)
Definition of_int (n : Z) : t := binary_normalize prec emax n 0 false.

Definition add : t -> t -> t := SFadd prec emax.
Definition div : t -> t -> t := SFdiv prec emax.

(** [x > y]; false as soon as one side is NaN. *)
Definition gt (x y : t) : bool :=
  match SFcompare x y with
  | Some Gt => true
  | _ => false
  end.

Definition min_int64 : Z := - 2 ^ 63.
Definition max_int64 : Z := 2 ^ 63 - 1.

(** The integer part of a finite float, fraction discarded. *)
Definition trunc (x : t) : option Z :=
  match x with
  | S754_zero _ => Some 0
  | S754_finite s m e =>
      let a := match e with
               | Z0 => Zpos m
               | Zpos p => Zpos m * 2 ^ Zpos p
               | Zneg p => Zpos m / 2 ^ Zpos p
               end in
      Some (if s then - a else a)
  | _ => None
  end.

(** [int64(x)]: truncation towards zero.  The language leaves the result
    open when the value does not fit; amd64 yields the least [int64]. *)
Definition to_int64 (x : t) : Z :=
  match trunc x with
  | Some z => if (min_int64 <=? z) && (z <=? max_int64) then z else min_int64
  | None => min_int64
  end.

End F64.

(** ** package time *)

Module time.

(** [time.Duration]: an [int64] count of nanoseconds. *)
Definition Duration : Type := Z.

Definition wrap64 (z : Z) : Z := (z + 2 ^ 63) mod 2 ^ 64 - 2 ^ 63.

Definition Nanosecond : Duration := 1.
Definition Microsecond : Duration := 1000 * Nanosecond.
Definition Millisecond : Duration := 1000 * Microsecond.
Definition Second : Duration := 1000 * Millisecond.
Definition Minute : Duration := 60 * Second.
Definition Hour : Duration := 60 * Minute.

Definition minDuration : Duration := - 2 ^ 63.
Definition maxDuration : Duration := 2 ^ 63 - 1.

(** [func (d Duration) Hours() float64]:
    [hour := d / Hour; nsec := d % Hour;
     return float64(hour) + float64(nsec)/(60*60*1e9)]. *)
Definition Hours (d : Duration) : F64.t :=
  let hour := Z.quot d Hour in
  let nsec := Z.rem d Hour in
  F64.add (F64.of_int hour)
          (F64.div (F64.of_int nsec) (F64.of_int (60 * 60 * 1000000000))).

(** [time.Time], as the wall-clock instant in nanoseconds since the Unix
    epoch (a parsed timestamp carries no monotonic reading). *)
Definition Time : Type := Z.

(** [func (t Time) Sub(u Time) Duration]: the difference, clamped to the
    range of [Duration]. *)
Definition Sub (t u : Time) : Duration :=
  if t - u <? minDuration then minDuration
  else if maxDuration <? t - u then maxDuration
  else t - u.

End time.

(** ** Staleness arithmetic of [CheckIfStale] (lines 79-83) *)

(** [x / 24] on [float64]. *)
Definition div24 (x : F64.t) : F64.t := F64.div x (F64.of_int 24).

(** Lines 79-83, for [since = time.Since(commitDate)]. *)
Definition staleness (since threshold : time.Duration) : bool * time.Duration :=
  let daysSinceCommit := div24 (time.Hours since) in
  if F64.gt daysSinceCommit (div24 (time.Hours threshold))
  then (true, time.wrap64 (F64.to_int64 daysSinceCommit * time.Hour))
  else (false, 0).

(** [threshold := 3 * 30 * 24 * time.Hour] of [main]. *)
Definition main_threshold : time.Duration := 3 * 30 * 24 * time.Hour.

Definition days (n : Z) : time.Duration := n * 24 * time.Hour.

(** ** Decoded JSON, requests and console *)

(** A value of Go's [interface{}] as [encoding/json] produces it.  The nil
    interface (JSON null, or a key that is absent) is [None] in
    [option value]. *)
#[local] Set Warnings "-register-all".
Inductive value : Type :=
  | VBool (b : bool)
  | VNumber (x : F64.t)
  | VString (s : string)
  | VArray (l : list (option value))
  | VObject (m : gmap string (option value)).

(** [map[string]interface{}] *)
Abbreviation object := (gmap string (option value)).

(** [m[k]]: the nil interface when the key is absent. *)
Definition index (m : object) (k : string) : option value :=
  match m !! k with
  | Some v => v
  | None => None
  end.

(** Go's [error]: produced by the transport, or built by [fmt.Errorf]. *)
Inductive error : Type :=
  | TransportError (msg : string)
  | Errorf (format : string) (a : list string).

(** One argument of a [fmt.Printf] call. *)
Inductive arg : Type :=
  | AString (s : string)
  | AInterface (v : option value)
  | AError (e : error)
  | AFloat (x : F64.t).

(** One [fmt.Printf] call: the format string of the source with its
    arguments. *)
Record printf : Type := Printf { format : string; operands : list arg }.

Inductive method : Type := GET | DELETE.

Record Request : Type :=
  { Method : method; URL : string; Token : string }.

(** What the code reads off a [*resty.Response], with the slice that
    [SetResult] filled in. *)
Record Response : Type :=
  { StatusCode : Z; Status : string; Result : list object }.

(** [BitbucketClient] without its [*resty.Client], which is the world. *)
Record BitbucketClient : Type :=
  { BaseURL : string; AuthToken : string; Workspace : string }.

Definition NewBitbucketClient (workspace authToken : string) : BitbucketClient :=
  {| BaseURL := "https://api.bitbucket.org/2.0";
     AuthToken := authToken;
     Workspace := workspace |}.

(** ** The protected-branch loop of [DeleteBranch] (lines 89-97) *)

Definition protectedBranches : list string := ["main"; "master"; "develop"].

(** [for _, protectedBranch := range l { if branchName == protectedBranch
    { ...; return nil } }]: true when the loop returns from inside. *)
Fixpoint matches_any (branchName : string) (l : list string) : bool :=
  match l with
  | [] => false
  | protectedBranch :: rest =>
      if String.eqb branchName protectedBranch then true
      else matches_any branchName rest
  end.

Definition isProtected (branchName : string) : bool :=
  matches_any branchName protectedBranches.

(** ** The program monad *)

(** A call either returns or panics (a failed type assertion). *)
Inductive outcome (A : Type) : Type :=
  | Returns (a : A)
  | Panics.
Arguments Returns {A} a.
Arguments Panics {A}.

Section Program.

(** The outside: the state of the HTTP service and of the clock, how a
    request is answered ([inr] is a transport failure), what the clock
    reads, and [time.Parse(time.RFC3339, s)] ([None] is a parse error). *)
Context {World : Type}.
Variable execute : World -> Request -> World * (Response + error).
Variable time_Now : World -> World * time.Time.
Variable time_Parse : string -> option time.Time.

(** The world, the requests sent so far (oldest first) and the lines
    printed so far (oldest first). *)
Record Env : Type :=
  { world : World; sent : list Request; stdout : list printf }.

Definition M (A : Type) : Type := Env -> outcome A * Env.

Definition ret {A} (a : A) : M A := fun env => (Returns a, env).

Definition bind {A B} (m : M A) (k : A -> M B) : M B :=
  fun env =>
    match m env with
    | (Returns a, env') => k a env'
    | (Panics, env') => (Panics, env')
    end.

Definition panic {A} : M A := fun env => (Panics, env).

Notation "'let*' x := m 'in' k" := (bind m (fun x => k))
  (at level 10, x name, m at level 100, k at level 200).
Notation "'do' m 'then' k" := (bind m (fun _ => k))
  (at level 10, m at level 100, k at level 200).

Definition fmt_Printf (format : string) (a : list arg) : M unit :=
  fun env =>
    (Returns tt,
     {| world := world env; sent := sent env;
        stdout := stdout env ++ [Printf format a] |}).

(** [b.Client.R().SetAuthToken(..)...Get(url)] and [...Delete(url)]. *)
Definition resty (req : Request) : M (Response + error) :=
  fun env =>
    let '(w, r) := execute (world env) req in
    (Returns r,
     {| world := w; sent := sent env ++ [req]; stdout := stdout env |}).

Definition time_Since (t : time.Time) : M time.Duration :=
  fun env =>
    let '(w, now) := time_Now (world env) in
    (Returns (time.Sub now t),
     {| world := w; sent := sent env; stdout := stdout env |}).

(** [v.(map[string]interface{})] and [v.(string)]. *)
Definition assert_map (v : option value) : M object :=
  match v with
  | Some (VObject m) => ret m
  | _ => panic
  end.

Definition assert_string (v : option value) : M string :=
  match v with
  | Some (VString s) => ret s
  | _ => panic
  end.

(** [for _, x := range l { body }] *)
Fixpoint range {A} (l : list A) (body : A -> M unit) : M unit :=
  match l with
  | [] => ret tt
  | x :: rest => do body x then range rest body
  end.

Variable b : BitbucketClient.

Definition repositories_url : string :=
  BaseURL b +:+ "/repositories/" +:+ Workspace b.

Definition branches_url (repoSlug : string) : string :=
  BaseURL b +:+ "/repositories/" +:+ Workspace b +:+ "/" +:+ repoSlug
    +:+ "/refs/branches".

Definition branch_url (repoSlug branchName : string) : string :=
  BaseURL b +:+ "/repositories/" +:+ Workspace b +:+ "/" +:+ repoSlug
    +:+ "/refs/branches/" +:+ branchName.

(** [FetchRepositories] (lines 33-50); [(nil, err)] is [([], Some err)]. *)
Definition FetchRepositories : M (list object * option error) :=
  let* r := resty {| Method := GET; URL := repositories_url; Token := AuthToken b |} in
  match r with
  | inr err => ret ([], Some err)
  | inl resp =>
      if negb (StatusCode resp =? 200)
      then ret ([], Some (Errorf "failed to fetch repositories: %s" [Status resp]))
      else ret (Result resp, None)
  end.

(** [FetchBranches] (lines 53-70). *)
Definition FetchBranches (repoSlug : string) : M (list object * option error) :=
  let* r := resty {| Method := GET; URL := branches_url repoSlug; Token := AuthToken b |} in
  match r with
  | inr err => ret ([], Some err)
  | inl resp =>
      if negb (StatusCode resp =? 200)
      then ret ([], Some (Errorf "failed to fetch branches for repo %s: %s"
                                 [repoSlug; Status resp]))
      else ret (Result resp, None)
  end.

(** [CheckIfStale] (lines 73-84). *)
Definition CheckIfStale (branch : object) (threshold : time.Duration)
  : M (bool * time.Duration) :=
  let* target := assert_map (index branch "target") in
  let* commitDateStr := assert_string (index target "date") in
  match time_Parse commitDateStr with
  | None => ret (false, 0)
  | Some commitDate =>
      let* since := time_Since commitDate in
      ret (staleness since threshold)
  end.

(** [DeleteBranch] (lines 87-115); the [nil] error is [None]. *)
Definition DeleteBranch (repoSlug branchName : string) : M (option error) :=
  if isProtected branchName then
    do fmt_Printf "Branch %s is protected and cannot be deleted.\n"
                  [AString branchName]
    then ret None
  else
    let* r := resty {| Method := DELETE; URL := branch_url repoSlug branchName;
                  Token := AuthToken b |} in
    match r with
    | inr err => ret (Some err)
    | inl resp =>
        if negb (StatusCode resp =? 204)
        then ret (Some (Errorf "failed to delete branch %s: %s"
                               [branchName; Status resp]))
        else
          do fmt_Printf "Branch %s deleted in repository %s\n"
                        [AString branchName; AString repoSlug]
          then ret None
    end.

(** The body of the loop over branches (lines 137-146).  The call of
    [DeleteBranch] is commented out in the source; what runs under
    [delete] is the print of line 144. *)
Definition per_branch (threshold : time.Duration) (delete : bool)
    (repoSlug : string) (branch : object) : M unit :=
  let* r := CheckIfStale branch threshold in
  let '(isStale, nonInteractDays) := r in
  if isStale then
    do fmt_Printf
         "Stale branch found: %s in repo %s, non-interacted for approximate %.0f days\n"
         [AInterface (index branch "name"); AString repoSlug;
          AFloat (div24 (time.Hours nonInteractDays))]
    then if delete then fmt_Printf "Blaaa" [] else ret tt
  else ret tt.

(** The body of the loop over repositories (lines 127-147). *)
Definition per_repo (threshold : time.Duration) (delete : bool)
    (repo : object) : M unit :=
  let* repoSlug := assert_string (index repo "slug") in
  do fmt_Printf "Checking branches for repository: %s\n" [AString repoSlug] then
  let* r := FetchBranches repoSlug in
  let '(branches, err) := r in
  match err with
  | Some e =>
      fmt_Printf "Error fetching branches for repo %s: %v\n"
                 [AString repoSlug; AError e]
  | None => range branches (per_branch threshold delete repoSlug)
  end.

(** [ListStaleBranches] (lines 119-149). *)
Definition ListStaleBranches (threshold : time.Duration) (delete : bool) : M unit :=
  let* r := FetchRepositories in
  let '(repos, err) := r in
  match err with
  | Some e => fmt_Printf "Error fetching repositories: %v\n" [AError e]
  | None => range repos (per_repo threshold delete)
  end.

End Program.

Arguments Env World : clear implicits.
Arguments M World A : clear implicits.

(** ** A workspace to run the program on

    Two repositories: [repo-a] with [master] (one day old) and [feature-x]
    (200 days old), [repo-b] with [old-stuff] (91 days old); a third,
    [repo-c], whose branch list cannot be fetched comes first when
    [broken] is set.  The service answers every DELETE with 204. *)
Module Scenario.

Definition now : time.Time := 1700000000 * time.Second.

(** The timestamps of this workspace, as [time.Parse] reads them. *)
Definition time_Parse (s : string) : option time.Time :=
  if String.eqb s "2023-11-13T22:13:20Z" then Some (1699913600 * time.Second)
  else if String.eqb s "2023-04-28T22:13:20Z" then Some (1682720000 * time.Second)
  else if String.eqb s "2023-08-15T22:13:20Z" then Some (1692137600 * time.Second)
  else if String.eqb s "2022-11-14T22:13:19.999999999Z"
       then Some (1668463999 * time.Second + 999999999)
  else None.

Definition time_Now (w : unit) : unit * time.Time := (w, now).

Definition repo (slug : string) : object :=
  {[ "slug" := Some (VString slug) ]}.

Definition branch (name date : string) : object :=
  {[ "name" := Some (VString name);
     "target" := Some (VObject {[ "date" := Some (VString date) ]}) ]}.

Definition ok (result : list object) : Response + error :=
  inl {| StatusCode := 200; Status := "200 OK"; Result := result |}.

Definition answer (broken : bool) (req : Request) : Response + error :=
  match Method req with
  | DELETE => inl {| StatusCode := 204; Status := "204 No Content"; Result := [] |}
  | GET =>
      if String.eqb (URL req) "https://api.bitbucket.org/2.0/repositories/acme"
      then ok ((if broken then [repo "repo-c"] else []) ++ [repo "repo-a"; repo "repo-b"])
      else if String.eqb (URL req)
                "https://api.bitbucket.org/2.0/repositories/acme/repo-a/refs/branches"
      then ok [branch "master" "2023-11-13T22:13:20Z";
               branch "feature-x" "2023-04-28T22:13:20Z"]
      else if String.eqb (URL req)
                "https://api.bitbucket.org/2.0/repositories/acme/repo-b/refs/branches"
      then ok [branch "old-stuff" "2023-08-15T22:13:20Z"]
      else inl {| StatusCode := 404; Status := "404 Not Found"; Result := [] |}
  end.

Definition execute (broken : bool) (w : unit) (req : Request)
  : unit * (Response + error) := (w, answer broken req).

(** A service that rejects the token. *)
Definition unauthorized (w : unit) (req : Request) : unit * (Response + error) :=
  (w, inl {| StatusCode := 401; Status := "401 Unauthorized"; Result := [] |}).

Definition client : BitbucketClient := NewBitbucketClient "acme" "secret".

Definition start : Env unit := {| world := tt; sent := []; stdout := [] |}.

End Scenario.

(** ** Notions the properties are stated with *)

Section Requests.

Variable b : BitbucketClient.

(** The request [DeleteBranch] builds. *)
Definition delete_request (repoSlug branchName : string) : Request :=
  {| Method := DELETE; URL := branch_url b repoSlug branchName;
     Token := AuthToken b |}.

Definition branches_request (repoSlug : string) : Request :=
  {| Method := GET; URL := branches_url b repoSlug; Token := AuthToken b |}.

Definition repositories_request : Request :=
  {| Method := GET; URL := repositories_url b; Token := AuthToken b |}.

End Requests.

(** A fetch fails on a transport error or on a status other than 200. *)
Definition fetch_failed (r : Response + error) : Prop :=
  match r with
  | inr _ => True
  | inl resp => StatusCode resp <> 200
  end.

Definition printed {World : Type} (env : Env World) (lines : list printf) : Env World :=
  {| world := world env; sent := sent env; stdout := stdout env ++ lines |}.

(** Every request sent beyond those of [env0] is a GET. *)
Definition only_GET_since {World : Type} (env0 env : Env World) : Prop :=
  exists l, sent env = sent env0 ++ l /\ Forall (fun r => Method r = GET) l.

(** A duration that fits [int64]. *)
Definition in_int64 (d : Z) : Prop := time.minDuration <= d <= time.maxDuration.

(** [daysSinceCommit] of line 79, and the right-hand side of line 80. *)
Definition day_count (d : time.Duration) : F64.t := div24 (time.Hours d).

(** Rounding to the nearest float, on integers. *)
Module Rnd.

(** Where [P/Q] sits between [P / Q] and its successor. *)
Definition locate (P Q : Z) : location :=
  if P mod Q =? 0 then loc_Exact else loc_Inexact (2 * (P mod Q) ?= Q).

Definition record (P Q : Z) : shr_record :=
  shr_record_of_loc (P / Q) (locate P Q).

(** Round to nearest, ties to even, of [P/Q]. *)
Definition rne (P Q : Z) : Z := round_nearest_even (P / Q) (locate P Q).

(** The float of mantissa [m] in [2^52, 2^53] at exponent [e]. *)
Definition finish (s : bool) (m e : Z) : spec_float :=
  if m =? 2 ^ 53 then S754_finite s (Z.to_pos (2 ^ 52)) (e + 1)
  else S754_finite s (Z.to_pos m) e.

Definition round_to (s : bool) (P Q e : Z) : spec_float := finish s (rne P Q) e.

(** A positive normal float: 53 significant bits, exponent within [B]
    of zero. *)
Definition normal (B : Z) (f : spec_float) : Prop :=
  match f with
  | S754_finite s m e => s = false /\ Zpos (digits2_pos m) = 53 /\ - B <= e <= B
  | _ => False
  end.

(** The value of a finite float, scaled by [2^1000]. *)
Definition sval (f : spec_float) : Z :=
  match f with
  | S754_finite _ m e => Zpos m * 2 ^ (e + 1000)
  | _ => 0
  end.

(** [f1 <= f2] as the comparison of floats decides it. *)
Definition fle (f1 f2 : spec_float) : Prop :=
  SFcompare f1 f2 = Some Lt \/ SFcompare f1 f2 = Some Eq.

(** [f] is the float nearest to [num / den], both scaled by [2^1000]:
    the rounding of a quotient [P/Q] in [2^52, 2^53) at an exponent [e],
    with [P/Q * 2^e] the value. *)
Definition rounds (B num den : Z) (f : spec_float) : Prop :=
  exists P Q e,
    0 < Q /\ 2 ^ 52 * Q <= P < 2 ^ 53 * Q /\ - B <= e /\ e + 1 <= B
    /\ P * 2 ^ (e + 1000) * den = num * Q
    /\ f = round_to false P Q e.

Definition nonneg (B : Z) (f : spec_float) : Prop :=
  f = S754_zero false \/ normal B f.

Definition rounds0 (B num den : Z) (f : spec_float) : Prop :=
  (num = 0 /\ f = S754_zero false) \/ (0 < num /\ rounds B num den f).

(** [float64(nsec) / (60*60*1e9)] of [Hours]. *)
Definition frac (n : Z) : F64.t :=
  F64.div (F64.of_int n) (F64.of_int (60 * 60 * 1000000000)).

End Rnd.

(** ** [main] (lines 151-184) *)

Section Main.

Context {World : Type}.
Variable execute : World -> Request -> World * (Response + error).
Variable time_Now : World -> World * time.Time.
Variable time_Parse : string -> option time.Time.

(** [godotenv.Load()]: reads the file into the process environment, which
    is part of the world; [Some _] when the file cannot be loaded. *)
Variable godotenv_Load : World -> World * option error.

(** [os.Getenv(key)]: the empty string when the variable is not set. *)
Variable os_Getenv : World -> string -> string.

Definition load_dotenv : M World (option error) :=
  fun env =>
    let '(w, err) := godotenv_Load (world env) in
    (Returns err, {| world := w; sent := sent env; stdout := stdout env |}).

Definition getenv (key : string) : M World string :=
  fun env => (Returns (os_Getenv (world env) key), env).

(** [fmt.Println(s)] for a literal [s]: the text and a newline, recorded as
    the [Printf] of that line without operands. *)
Definition fmt_Println (s : string) : M World unit := fmt_Printf (s +:+ "\n") [].

Definition main : M World unit :=
  bind load_dotenv (fun err =>
  bind (match err with
        | Some _ => fmt_Println "Error loading .env file"
        | None => ret tt
        end) (fun _ =>
  bind (getenv "BITBUCKET_TOKEN") (fun authToken =>
  if String.eqb authToken "" then
    fmt_Println "Error: BITBUCKET_TOKEN environment variable is not set"
  else
  bind (getenv "BITBUCKET_WORKSPACE") (fun workspace =>
  if String.eqb workspace "" then
    fmt_Println "Error: BITBUCKET_WORKSPACE environment variable is not set"
  else
    let client := NewBitbucketClient workspace authToken in
    let threshold := main_threshold in
    let delete := false in
    ListStaleBranches execute time_Now time_Parse client threshold delete)))).

End Main.

(** ** Further notions the properties are stated with *)

(** The records the type assertions of lines 74 and 127 accept. *)
Definition has_slug (repo : object) : Prop :=
  exists slug, index repo "slug" = Some (VString slug).

Definition has_date (branch : object) : Prop :=
  exists target commitDateStr,
    index branch "target" = Some (VObject target)
    /\ index target "date" = Some (VString commitDateStr).

(** The console without the lines of line 144. *)
Definition without_placeholder (l : list printf) : list printf :=
  List.filter (fun p => negb (String.eqb (format p) "Blaaa")) l.

Definition not_placeholder (p : printf) : Prop := format p <> "Blaaa".

(** Two states that differ at most in the lines of line 144. *)
Definition same_but_placeholder {World : Type} (et ef : Env World) : Prop :=
  world et = world ef /\ sent et = sent ef
  /\ without_placeholder (stdout et) = without_placeholder (stdout ef).

(** [env] has the console of [env0] and then lines that satisfy [P]. *)
Definition appended {World : Type} (P : printf -> Prop) (env0 env : Env World)
  : Prop :=
  exists l, stdout env = stdout env0 ++ l /\ Forall P l.

(** What [main] prints about the [.env] file (lines 154-156). *)
Definition dotenv_notice (err : option error) : list printf :=
  match err with
  | Some _ => [Printf "Error loading .env file\n" []]
  | None => []
  end.

(** Zero or a normal float of either sign, and its signed value scaled by
    [2^1000]. *)
Definition ordinary (f : spec_float) : Prop :=
  match f with
  | S754_zero _ => True
  | S754_finite _ m e => Zpos (digits2_pos m) = 53 /\ -1000 <= e <= 1000
  | _ => False
  end.

Definition signed_value (f : spec_float) : Z :=
  match f with
  | S754_finite true m e => - (Zpos m * 2 ^ (e + 1000))
  | S754_finite false m e => Zpos m * 2 ^ (e + 1000)
  | _ => 0
  end.

(** A process for [main]: no [.env] file; the two variables set or not. *)
Module Process.

Definition godotenv_Load (w : unit) : unit * option error :=
  (w, Some (TransportError "open .env: no such file or directory")).

Definition configured (w : unit) (key : string) : string :=
  if String.eqb key "BITBUCKET_TOKEN" then "secret"
  else if String.eqb key "BITBUCKET_WORKSPACE" then "acme"
  else "".

Definition no_workspace (w : unit) (key : string) : string :=
  if String.eqb key "BITBUCKET_TOKEN" then "secret" else "".

End Process.

(** A service whose records fail the type assertions: the second
    repository has no "slug", the second branch of [repo-a] no "target". *)
Module Malformed.

Definition repo_without_slug : object :=
  {[ "name" := Some (VString "Repo X") ]}.

Definition branch_without_date : object :=
  {[ "name" := Some (VString "detached") ]}.

Definition answer (req : Request) : Response + error :=
  if String.eqb (URL req) "https://api.bitbucket.org/2.0/repositories/acme"
  then Scenario.ok [Scenario.repo "repo-b"; repo_without_slug; Scenario.repo "repo-a"]
  else if String.eqb (URL req)
            "https://api.bitbucket.org/2.0/repositories/acme/repo-a/refs/branches"
  then Scenario.ok [Scenario.branch "master" "2023-11-13T22:13:20Z";
                    branch_without_date;
                    Scenario.branch "feature-x" "2023-04-28T22:13:20Z"]
  else inl {| StatusCode := 404; Status := "404 Not Found"; Result := [] |}.

Definition execute (w : unit) (req : Request) : unit * (Response + error) :=
  (w, answer req).

End Malformed.

(** * Properties *)

(** ** The protected-branch guard *)

Lemma matches_any_In (branchName : string) (l : list string) :
  matches_any branchName l = true <-> In branchName l.
Proof.
  induction l as [|p rest IH]; simpl.
  - split; [discriminate | tauto].
  - destruct (String.eqb branchName p) eqn:E.
    + apply String.eqb_eq in E. subst. tauto.
    + apply String.eqb_neq in E. rewrite IH. split; [tauto|].
      intros [H|H]; [congruence | exact H].
Qed.

Lemma isProtected_In (branchName : string) :
  isProtected branchName = true <-> In branchName protectedBranches.
Proof. apply matches_any_In. Qed.

Lemma isProtected_not_In (branchName : string) :
  ~ In branchName protectedBranches -> isProtected branchName = false.
Proof.
  intros Hnot. destruct (isProtected branchName) eqn:E; [|reflexivity].
  apply isProtected_In in E. contradiction.
Qed.

(** C6: the guard answers true exactly on "main", "master" and "develop",
    compared byte for byte; "Main" is not protected. *)
Theorem isProtected_exact :
  (forall branchName : string,
      isProtected branchName = true <->
      branchName = "main" \/ branchName = "master" \/ branchName = "develop")
  /\ isProtected "Main" = false.
Proof.
  split; [|reflexivity].
  intros n. rewrite isProtected_In. unfold protectedBranches. simpl.
  intuition congruence.
Qed.

(** ** Rounding of [float64] operations *)

Module Rounding.

Import F64 Rnd.

Lemma digits2_pos_bounds (m : positive) :
  2 ^ (Zpos (digits2_pos m) - 1) <= Zpos m < 2 ^ Zpos (digits2_pos m).
Proof.
  induction m as [m IH|m IH|]; simpl digits2_pos.
  - rewrite Pos2Z.inj_succ.
    replace (Z.succ (Zpos (digits2_pos m)) - 1) with (Z.succ (Zpos (digits2_pos m) - 1)) by lia.
    rewrite !Z.pow_succ_r by lia. lia.
  - rewrite Pos2Z.inj_succ.
    replace (Z.succ (Zpos (digits2_pos m)) - 1) with (Z.succ (Zpos (digits2_pos m) - 1)) by lia.
    rewrite !Z.pow_succ_r by lia. lia.
  - simpl. lia.
Qed.

Lemma digits2_pos_unique (m : positive) (d : Z) :
  2 ^ (d - 1) <= Zpos m < 2 ^ d -> Zpos (digits2_pos m) = d.
Proof.
  intros [H1 H2]. pose proof (digits2_pos_bounds m) as [B1 B2].
  set (k := Zpos (digits2_pos m)) in *.
  assert (0 < d).
  { destruct (Z_lt_le_dec 0 d); [assumption|].
    assert (2 ^ d <= 1).
    { destruct (Z.eq_dec d 0) as [->|]; [simpl; lia|].
      rewrite Z.pow_neg_r by lia. lia. }
    lia. }
  destruct (Z.lt_trichotomy k d) as [L|[E|L]]; [|exact E|].
  - assert (2 ^ k <= 2 ^ (d - 1)) by (apply Z.pow_le_mono_r; lia). lia.
  - assert (2 ^ d <= 2 ^ (k - 1)) by (apply Z.pow_le_mono_r; lia). lia.
Qed.

Lemma shr_m_record P Q : shr_m (record P Q) = P / Q.
Proof. unfold record. destruct (locate P Q) as [|[]]; reflexivity. Qed.

Lemma loc_record P Q : loc_of_shr_record (record P Q) = locate P Q.
Proof. unfold record. destruct (locate P Q) as [|[]]; reflexivity. Qed.

Lemma shr_1_nonneg (mrs : shr_record) :
  0 <= shr_m mrs ->
  shr_1 mrs = {| shr_m := shr_m mrs / 2; shr_r := Z.odd (shr_m mrs);
                 shr_s := shr_r mrs || shr_s mrs |}.
Proof.
  destruct mrs as [m r s]. simpl shr_m. intros Hm.
  rewrite <- Z.div2_div.
  destruct m as [|[p|p|]|p]; try lia; reflexivity.
Qed.

Lemma sticky_record P Q :
  shr_r (record P Q) || shr_s (record P Q) = negb (P mod Q =? 0).
Proof.
  unfold record, locate. destruct (P mod Q =? 0); [reflexivity|].
  destruct (2 * (P mod Q) ?= Q); reflexivity.
Qed.

Lemma shr_1_record P Q :
  0 <= P -> 0 < Q -> shr_1 (record P Q) = record P (2 * Q).
Proof.
  intros HP HQ.
  assert (Hdiv : P / (2 * Q) = (P / Q) / 2).
  { rewrite (Z.mul_comm 2 Q), Z.div_div by lia. reflexivity. }
  assert (Hmod : P mod (2 * Q) = P mod Q + Q * ((P / Q) mod 2)).
  { rewrite (Z.mul_comm 2 Q). apply Z.rem_mul_r; lia. }
  pose proof (Z.mod_pos_bound P Q HQ) as Hr.
  pose proof (Z.div_pos P Q HP HQ) as Hm.
  rewrite shr_1_nonneg by (rewrite shr_m_record; exact Hm).
  rewrite sticky_record, shr_m_record.
  unfold record at 1, locate. rewrite Hdiv, Hmod.
  set (m := P / Q) in *. set (r := P mod Q) in *.
  rewrite (Zmod_odd m).
  destruct (Z.odd m); destruct (Z.eqb_spec r 0) as [Hr0|Hr0]; simpl negb.
  - destruct (Z.eqb_spec (r + Q * 1) 0); [lia|].
    replace (2 * (r + Q * 1) ?= 2 * Q) with Eq
      by (symmetry; apply Z.compare_eq_iff; lia).
    reflexivity.
  - destruct (Z.eqb_spec (r + Q * 1) 0); [lia|].
    replace (2 * (r + Q * 1) ?= 2 * Q) with Gt
      by (symmetry; apply Z.compare_gt_iff; lia).
    reflexivity.
  - destruct (Z.eqb_spec (r + Q * 0) 0); [|lia]. reflexivity.
  - destruct (Z.eqb_spec (r + Q * 0) 0); [lia|].
    replace (2 * (r + Q * 0) ?= 2 * Q) with Lt
      by (symmetry; apply Z.compare_lt_iff; lia).
    reflexivity.
Qed.

Lemma iter_pos_shr_1_record (n : positive) : forall P Q,
  0 <= P -> 0 < Q ->
  SpecFloat.iter_pos shr_1 n (record P Q) = record P (2 ^ Zpos n * Q).
Proof.
  induction n as [n IH|n IH|]; intros P Q HP HQ; simpl SpecFloat.iter_pos.
  - rewrite shr_1_record, IH, IH by lia. f_equal.
    replace (2 ^ Zpos n~1) with (2 ^ Zpos n * 2 ^ Zpos n * 2)
      by (rewrite <- Z.pow_add_r by lia;
          replace (Zpos n~1) with (Z.succ (Zpos n + Zpos n)) by lia;
          rewrite Z.pow_succ_r by lia; ring).
    ring.
  - rewrite IH, IH by lia. f_equal.
    replace (2 ^ Zpos n~0) with (2 ^ Zpos n * 2 ^ Zpos n)
      by (rewrite <- Z.pow_add_r by lia; f_equal; lia).
    ring.
  - rewrite shr_1_record by lia. reflexivity.
Qed.

(** [shr] by [n >= 0] places. *)
Lemma shr_record P Q e n :
  0 <= P -> 0 < Q -> 0 <= n ->
  shr (record P Q) e n = (record P (2 ^ n * Q), e + n).
Proof.
  intros HP HQ Hn. destruct n as [|n|n]; try lia.
  - simpl. rewrite Z.add_0_r. f_equal. f_equal. destruct Q; reflexivity.
  - simpl shr. rewrite iter_pos_shr_1_record by lia. reflexivity.
Qed.

Lemma rne_bounds P Q : P / Q <= rne P Q <= P / Q + 1.
Proof.
  unfold rne, round_nearest_even.
  destruct (locate P Q) as [|[]]; try lia. destruct (Z.even (P / Q)); lia.
Qed.

Lemma Zdigits2_bounds (m : Z) :
  0 < m -> 2 ^ (Zdigits2 m - 1) <= m < 2 ^ Zdigits2 m.
Proof. destruct m as [|p|p]; try lia. intros _. apply digits2_pos_bounds. Qed.

Lemma Zdigits2_unique (m d : Z) :
  0 < m -> 2 ^ (d - 1) <= m < 2 ^ d -> Zdigits2 m = d.
Proof. destruct m as [|p|p]; try lia. intros _. apply digits2_pos_unique. Qed.

Lemma fexp_normal (e : Z) : -1074 <= e - 53 -> fexp prec emax e = e - 53.
Proof. unfold fexp, emin, prec, emax. lia. Qed.

Lemma record_exact (m : Z) : shr_record_of_loc m loc_Exact = record m 1.
Proof.
  unfold record, locate. rewrite Z.mod_1_r, Z.div_1_r. reflexivity.
Qed.

Lemma binary_round_aux_spec (s : bool) (P Q ex : Z) :
  0 <= P -> 0 < Q ->
  let d := Zdigits2 (P / Q) in
  53 <= d -> -1074 <= ex + d - 53 -> ex + d - 53 + 1 <= 971 ->
  binary_round_aux prec emax s (P / Q) ex (locate P Q)
  = round_to s P (2 ^ (d - 53) * Q) (ex + d - 53).
Proof.
  intros HP HQ d Hd Hlo Hhi.
  assert (Hmx : 0 < P / Q).
  { pose proof (Z.div_pos P Q HP HQ).
    destruct (Z.eq_dec (P / Q) 0) as [E|E]; [|lia].
    unfold d in Hd. rewrite E in Hd. simpl in Hd. lia. }
  pose proof (Zdigits2_bounds _ Hmx) as Hb. fold d in Hb.
  unfold binary_round_aux, shr_fexp.
  rewrite fexp_normal by (fold d; lia). fold d. fold (record P Q).
  replace (d + ex - 53 - ex) with (d - 53) by lia.
  rewrite shr_record by lia.
  set (Q1 := 2 ^ (d - 53) * Q).
  assert (HQ1 : 0 < Q1) by (unfold Q1; apply Z.mul_pos_pos; [apply Z.pow_pos_nonneg|]; lia).
  rewrite shr_m_record, loc_record. fold (rne P Q1).
  assert (Hm1 : 2 ^ 52 <= P / Q1 < 2 ^ 53).
  { unfold Q1. rewrite (Z.mul_comm _ Q), <- Z.div_div by (try apply Z.pow_pos_nonneg; lia).
    assert (Hp : 2 ^ d = 2 ^ 53 * 2 ^ (d - 53))
      by (rewrite <- Z.pow_add_r by lia; f_equal; lia).
    assert (Hp' : 2 ^ (d - 1) = 2 ^ 52 * 2 ^ (d - 53))
      by (rewrite <- Z.pow_add_r by lia; f_equal; lia).
    assert (0 < 2 ^ (d - 53)) by (apply Z.pow_pos_nonneg; lia).
    split.
    - apply Z.div_le_lower_bound; lia.
    - apply Z.div_lt_upper_bound; lia. }
  pose proof (rne_bounds P Q1) as Hr.
  unfold round_to, finish.
  set (m2 := rne P Q1) in *.
  rewrite record_exact.
  destruct (Z.eqb_spec m2 (2 ^ 53)) as [E|E].
  - rewrite E.
    replace (Zdigits2 (2 ^ 53)) with 54 by reflexivity.
    rewrite fexp_normal by lia.
    replace (54 + (ex + (d - 53)) - 53 - (ex + (d - 53))) with 1 by lia.
    rewrite shr_record by lia. rewrite shr_m_record.
    change (2 ^ 53 / (2 ^ 1 * 1)) with (2 ^ 52).
    change (2 ^ 52) with (Zpos (Z.to_pos (2 ^ 52))) at 1.
    cbv iota beta.
    replace (ex + (d - 53) + 1 <=? emax - prec) with true
      by (symmetry; apply Z.leb_le; unfold emax, prec; lia).
    f_equal; lia.
  - assert (Hd2 : Zdigits2 m2 = 53).
    { apply Zdigits2_unique; [lia|]. change (53 - 1) with 52. lia. }
    rewrite Hd2, fexp_normal by lia.
    replace (53 + (ex + (d - 53)) - 53 - (ex + (d - 53))) with 0 by lia.
    rewrite shr_record by lia. rewrite shr_m_record.
    change (2 ^ 0 * 1) with 1. rewrite Z.div_1_r.
    destruct m2 as [|p|p]; try lia.
    replace (ex + (d - 53) + 0 <=? emax - prec) with true
      by (symmetry; apply Z.leb_le; unfold emax, prec; lia).
    f_equal; lia.
Qed.

Lemma rne_eq P Q :
  0 < Q ->
  rne P Q = P / Q + (if (Q <? 2 * (P mod Q)) || ((Q =? 2 * (P mod Q)) && Z.odd (P / Q))
                     then 1 else 0).
Proof.
  intros HQ. unfold rne, locate, round_nearest_even.
  pose proof (Z.mod_pos_bound P Q HQ) as Hr.
  destruct (Z.eqb_spec (P mod Q) 0) as [E|E].
  - rewrite E. replace (Q <? 2 * 0) with false by (symmetry; apply Z.ltb_ge; lia).
    replace (Q =? 2 * 0) with false by (symmetry; apply Z.eqb_neq; lia).
    simpl. lia.
  - destruct (Z.compare_spec (2 * (P mod Q)) Q) as [C|C|C].
    + replace (Q <? 2 * (P mod Q)) with false by (symmetry; apply Z.ltb_ge; lia).
      replace (Q =? 2 * (P mod Q)) with true by (symmetry; apply Z.eqb_eq; lia).
      rewrite <- Z.negb_odd. simpl. destruct (Z.odd (P / Q)); simpl; lia.
    + replace (Q <? 2 * (P mod Q)) with false by (symmetry; apply Z.ltb_ge; lia).
      replace (Q =? 2 * (P mod Q)) with false by (symmetry; apply Z.eqb_neq; lia).
      simpl. lia.
    + replace (Q <? 2 * (P mod Q)) with true by (symmetry; apply Z.ltb_lt; lia).
      simpl. lia.
Qed.

Lemma div_le_cross P Q P' Q' :
  0 < Q -> 0 < Q' -> P * Q' <= P' * Q -> P / Q <= P' / Q'.
Proof.
  intros HQ HQ' H.
  rewrite <- (Z.div_mul_cancel_r P Q Q'), <- (Z.div_mul_cancel_r P' Q' Q) by lia.
  rewrite (Z.mul_comm Q' Q). apply Z.div_le_mono; nia.
Qed.

Lemma rne_mono P Q P' Q' :
  0 < Q -> 0 < Q' -> P * Q' <= P' * Q -> rne P Q <= rne P' Q'.
Proof.
  intros HQ HQ' H.
  pose proof (div_le_cross _ _ _ _ HQ HQ' H) as Hm.
  destruct (Z.eq_dec (P / Q) (P' / Q')) as [E|E].
  - rewrite !rne_eq by lia. rewrite <- E.
    pose proof (Z.div_mod P Q ltac:(lia)) as D.
    pose proof (Z.div_mod P' Q' ltac:(lia)) as D'.
    pose proof (Z.mod_pos_bound P Q HQ) as Hr.
    pose proof (Z.mod_pos_bound P' Q' HQ') as Hr'.
    rewrite <- E in D'.
    set (m := P / Q) in *. set (r := P mod Q) in *. set (r' := P' mod Q') in *.
    assert (Hrr : r * Q' <= r' * Q) by nia.
    assert (Hlt : Q < 2 * r -> Q' < 2 * r').
    { intros A. apply Z.nle_gt. intros C.
      assert (2 * r' * Q <= Q' * Q) by (apply Z.mul_le_mono_nonneg_r; lia).
      assert (Q * Q' < 2 * r * Q') by (apply Z.mul_lt_mono_pos_r; lia).
      lia. }
    assert (Hle : Q <= 2 * r -> Q' <= 2 * r').
    { intros A. apply Z.nlt_ge. intros C.
      assert (2 * r' * Q < Q' * Q) by (apply Z.mul_lt_mono_pos_r; lia).
      assert (Q * Q' <= 2 * r * Q') by (apply Z.mul_le_mono_nonneg_r; lia).
      lia. }
    destruct (Z.ltb_spec Q (2 * r)) as [A|A]; simpl orb.
    + replace (Q' <? 2 * r') with true by (symmetry; apply Z.ltb_lt; auto).
      simpl. lia.
    + destruct (Z.eqb_spec Q (2 * r)) as [B|B]; simpl andb.
      * destruct (Z.odd m) eqn:Ho.
        -- destruct (Z.ltb_spec Q' (2 * r')) as [A'|A']; cbn [orb andb]; [lia|].
           replace (Q' =? 2 * r') with true
             by (symmetry; apply Z.eqb_eq; specialize (Hle ltac:(lia)); lia).
           simpl. lia.
        -- destruct ((Q' <? 2 * r') || (Q' =? 2 * r') && false); lia.
      * destruct ((Q' <? 2 * r') || (Q' =? 2 * r') && Z.odd m); lia.
  - pose proof (rne_bounds P Q). pose proof (rne_bounds P' Q'). lia.
Qed.

(** ** Non-negative normal floats and their order *)

Lemma normal_mantissa B s m e :
  normal B (S754_finite s m e) -> 2 ^ 52 <= Zpos m < 2 ^ 53.
Proof.
  intros (_ & Hd & _). pose proof (digits2_pos_bounds m) as H.
  rewrite Hd in H. exact H.
Qed.

Lemma normal_weaken B B' f : B <= B' -> normal B f -> normal B' f.
Proof. destruct f; simpl; try tauto. intros ? (? & ? & ?). repeat split; auto; lia. Qed.

Lemma scale_lt (e e' : Z) :
  -1000 <= e -> e < e' -> 2 * 2 ^ (e + 1000) <= 2 ^ (e' + 1000).
Proof.
  intros H1 H2. rewrite <- Z.pow_succ_r by lia.
  apply Z.pow_le_mono_r; lia.
Qed.

Lemma scale_pos (e : Z) : -1000 <= e -> 0 < 2 ^ (e + 1000).
Proof. intros. apply Z.pow_pos_nonneg; lia. Qed.

Lemma fle_sval a b :
  normal 1000 a -> normal 1000 b -> (fle a b <-> sval a <= sval b).
Proof.
  intros Ha Hb.
  destruct a as [| | |s1 m1 e1]; try contradiction.
  destruct b as [| | |s2 m2 e2]; try contradiction.
  destruct Ha as (-> & D1 & R1). destruct Hb as (-> & D2 & R2).
  pose proof (digits2_pos_bounds m1) as B1. rewrite D1 in B1.
  pose proof (digits2_pos_bounds m2) as B2. rewrite D2 in B2.
  change (53 - 1) with 52 in B1, B2.
  unfold fle, sval. simpl SFcompare.
  pose proof (scale_pos e1 ltac:(lia)). pose proof (scale_pos e2 ltac:(lia)).
  destruct (Z.compare_spec e1 e2) as [E|E|E].
  - subst e2. change (Pos.compare_cont Eq m1 m2) with (Pos.compare m1 m2).
    rewrite Pos2Z.inj_compare.
    destruct (Z.compare_spec (Zpos m1) (Zpos m2)) as [C|C|C].
    + split; [intros _; rewrite C; lia | auto].
    + split; [intros _; nia | auto].
    + split; [intros [?|?]; discriminate | intros; nia].
  - pose proof (scale_lt e1 e2 ltac:(lia) E).
    split; [intros _; nia | auto].
  - pose proof (scale_lt e2 e1 ltac:(lia) E).
    split; [intros [?|?]; discriminate | intros; nia].
Qed.

Lemma div_normalized P Q :
  0 < Q -> 2 ^ 52 * Q <= P < 2 ^ 53 * Q -> 2 ^ 52 <= P / Q < 2 ^ 53.
Proof.
  intros HQ [H1 H2]. split.
  - apply Z.div_le_lower_bound; lia.
  - apply Z.div_lt_upper_bound; lia.
Qed.

Lemma pos_2_52 : Zpos (Z.to_pos (2 ^ 52)) = 2 ^ 52.
Proof. reflexivity. Qed.

Lemma round_to_sval s P Q e :
  0 < Q -> 2 ^ 52 * Q <= P < 2 ^ 53 * Q -> -1000 <= e ->
  sval (round_to s P Q e) = rne P Q * 2 ^ (e + 1000).
Proof.
  intros HQ HP He. unfold round_to, finish.
  pose proof (rne_bounds P Q) as Hb.
  pose proof (div_normalized P Q HQ HP) as Hm.
  destruct (Z.eqb_spec (rne P Q) (2 ^ 53)) as [E|E]; unfold sval.
  - rewrite E, pos_2_52. replace (e + 1 + 1000) with (Z.succ (e + 1000)) by lia.
    rewrite Z.pow_succ_r by lia.
    replace (2 ^ 53) with (2 * 2 ^ 52) by reflexivity. ring.
  - rewrite Z2Pos.id by lia. reflexivity.
Qed.

Lemma round_to_is_normal P Q e B :
  0 < Q -> 2 ^ 52 * Q <= P < 2 ^ 53 * Q -> - B <= e -> e + 1 <= B ->
  normal B (round_to false P Q e).
Proof.
  intros HQ HP He1 He2. unfold round_to, finish.
  pose proof (rne_bounds P Q) as Hb.
  pose proof (div_normalized P Q HQ HP) as Hm.
  destruct (Z.eqb_spec (rne P Q) (2 ^ 53)) as [E|E]; simpl.
  - repeat split; try lia.
  - repeat split; try lia.
    apply digits2_pos_unique. rewrite Z2Pos.id by lia.
    change (53 - 1) with 52. lia.
Qed.

Lemma rounds_normal B num den f : rounds B num den f -> normal B f.
Proof.
  intros (P & Q & e & HQ & HP & H1 & H2 & _ & ->).
  apply round_to_is_normal; assumption.
Qed.

Lemma rounds_mono B num den f B' num' den' f' :
  B <= 1000 -> B' <= 1000 -> 0 < den -> 0 < den' ->
  rounds B num den f -> rounds B' num' den' f' ->
  num * den' <= num' * den -> fle f f'.
Proof.
  intros HB HB' Hden Hden' R R' Hle.
  pose proof (rounds_normal _ _ _ _ R) as N.
  pose proof (rounds_normal _ _ _ _ R') as N'.
  apply (proj2 (fle_sval _ _ (normal_weaken _ _ _ HB N) (normal_weaken _ _ _ HB' N'))).
  clear N N'.
  destruct R as (P & Q & e & HQ & HP & H1 & H2 & V & ->).
  destruct R' as (P' & Q' & e' & HQ' & HP' & H1' & H2' & V' & ->).
  rewrite !round_to_sval by (try assumption; lia).
  pose proof (scale_pos e ltac:(lia)) as Hs. pose proof (scale_pos e' ltac:(lia)) as Hs'.
  set (S := 2 ^ (e + 1000)) in *. set (S' := 2 ^ (e' + 1000)) in *.
  (* the order of the values *)
  assert (Hval : P * S * Q' <= P' * S' * Q).
  { apply (Z.mul_le_mono_pos_r _ _ (den * den')); [nia|].
    replace (P * S * Q' * (den * den')) with ((P * S * den) * (Q' * den')) by ring.
    replace (P' * S' * Q * (den * den')) with ((P' * S' * den') * (Q * den)) by ring.
    rewrite V, V'.
    replace (num * Q * (Q' * den')) with ((num * den') * (Q * Q')) by ring.
    replace (num' * Q' * (Q * den)) with ((num' * den) * (Q * Q')) by ring.
    apply Z.mul_le_mono_nonneg_r; [nia | assumption]. }
  pose proof (rne_bounds P Q) as Hb. pose proof (rne_bounds P' Q') as Hb'.
  pose proof (div_normalized P Q HQ HP) as Hm.
  pose proof (div_normalized P' Q' HQ' HP') as Hm'.
  destruct (Z.lt_trichotomy e e') as [L|[E|L]].
  - pose proof (scale_lt e e' ltac:(lia) L) as Hsl. fold S S' in Hsl.
    change (2 ^ 53) with (2 * 2 ^ 52) in *. nia.
  - subst e'. change S' with S in *.
    assert (Hc : P * Q' <= P' * Q).
    { apply (Z.mul_le_mono_pos_r _ _ S); [assumption|]. lia. }
    pose proof (rne_mono P Q P' Q' HQ HQ' Hc).
    apply Z.mul_le_mono_nonneg_r; lia.
  - exfalso.
    pose proof (scale_lt e' e ltac:(lia) L) as Hsl. fold S S' in Hsl.
    assert (P' * S' * Q < 2 ^ 53 * Q' * S' * Q).
    { apply Z.mul_lt_mono_pos_r; [lia|]. apply Z.mul_lt_mono_pos_r; lia. }
    assert (2 ^ 52 * Q * S * Q' <= P * S * Q').
    { apply Z.mul_le_mono_nonneg_r; [lia|]. apply Z.mul_le_mono_nonneg_r; lia. }
    assert (2 ^ 53 * Q' * S' * Q <= 2 ^ 52 * Q * S * Q').
    { replace (2 ^ 53 * Q' * S' * Q) with ((2 * S') * (2 ^ 52 * Q * Q'))
        by (change (2 ^ 53) with (2 * 2 ^ 52); ring).
      replace (2 ^ 52 * Q * S * Q') with (S * (2 ^ 52 * Q * Q')) by ring.
      apply Z.mul_le_mono_nonneg_r; [nia | lia]. }
    lia.
Qed.

Lemma rounds_exact B f : normal B f -> rounds (B + 1) (sval f) 1 f.
Proof.
  destruct f as [| | |s m e]; try contradiction.
  intros N. pose proof (normal_mantissa _ _ _ _ N) as Hm.
  destruct N as (-> & Hd & He).
  exists (Zpos m), 1, e. repeat split; try lia.
  unfold round_to, finish, rne, locate.
  rewrite Z.mod_1_r, Z.div_1_r. simpl round_nearest_even.
  destruct (Z.eqb_spec (Zpos m) (2 ^ 53)); [lia|]. reflexivity.
Qed.

(** ** The operations *)

Lemma iter_xO (d m : positive) : Zpos (Pos.iter xO m d) = Zpos m * 2 ^ Zpos d.
Proof.
  induction d as [|d IH] using Pos.peano_ind.
  - simpl. lia.
  - rewrite Pos.iter_succ, Pos2Z.inj_xO, IH, Pos2Z.inj_succ, Z.pow_succ_r by lia.
    ring.
Qed.

Lemma shl_align_le (mx : positive) (ex ex' : Z) :
  ex' <= ex ->
  Zpos (fst (shl_align mx ex ex')) = Zpos mx * 2 ^ (ex - ex')
  /\ snd (shl_align mx ex ex') = ex'.
Proof.
  intros H. unfold shl_align.
  destruct (ex' - ex) as [|d|d] eqn:E; try lia; simpl fst; simpl snd.
  - replace (ex - ex') with 0 by lia. split; lia.
  - rewrite iter_xO. replace (ex - ex') with (Zpos d) by lia. split; lia.
Qed.

Lemma shl_align_ge (mx : positive) (ex ex' : Z) :
  ex <= ex' -> shl_align mx ex ex' = (mx, ex).
Proof.
  intros H. unfold shl_align. destruct (ex' - ex) eqn:E; try lia; reflexivity.
Qed.

Lemma locate_exact (m : Z) : locate m 1 = loc_Exact.
Proof. unfold locate. rewrite Z.mod_1_r. reflexivity. Qed.

(** [binary_round] of [m * 2^e]: the mantissa is brought to 53 bits,
    by a shift to the left that is exact or to the right that rounds. *)
Lemma binary_round_spec (m : positive) (e : Z) :
  let d := Zpos (digits2_pos m) in
  -1000 <= e + d - 53 -> e + d - 53 + 1 <= 900 ->
  binary_round prec emax false m e
  = round_to false (Zpos m * 2 ^ Z.max 0 (53 - d)) (2 ^ Z.max 0 (d - 53))
             (e + d - 53).
Proof.
  intros d Hlo Hhi.
  pose proof (digits2_pos_bounds m) as Hb. fold d in Hb.
  assert (Hd : 0 < d) by (unfold d; lia).
  unfold binary_round. fold d. rewrite fexp_normal by lia.
  destruct (Z_lt_le_dec d 53) as [L|L].
  - (* fewer than 53 bits: shifted to the left, exactly *)
    pose proof (shl_align_le m e (d + e - 53) ltac:(lia)) as [Hf Hs].
    destruct (shl_align m e (d + e - 53)) as [mz ez]. simpl in Hf, Hs. subst ez.
    replace (e - (d + e - 53)) with (53 - d) in Hf by lia.
    assert (Hmz : 2 ^ 52 <= Zpos mz < 2 ^ 53).
    { rewrite Hf.
      assert (E1 : 2 ^ 52 = 2 ^ (d - 1) * 2 ^ (53 - d))
        by (rewrite <- Z.pow_add_r by lia; f_equal; lia).
      assert (E2 : 2 ^ 53 = 2 ^ d * 2 ^ (53 - d))
        by (rewrite <- Z.pow_add_r by lia; f_equal; lia).
      assert (0 < 2 ^ (53 - d)) by (apply Z.pow_pos_nonneg; lia).
      rewrite E1, E2. split; [apply Z.mul_le_mono_nonneg_r; lia|].
      apply Z.mul_lt_mono_pos_r; lia. }
    pose proof (binary_round_aux_spec false (Zpos mz) 1 (d + e - 53)
                  ltac:(lia) ltac:(lia)) as Hspec.
    rewrite Z.div_1_r, locate_exact in Hspec.
    assert (Hdz : Zdigits2 (Zpos mz) = 53)
      by (apply Zdigits2_unique; [lia | change (53 - 1) with 52; lia]).
    rewrite Hdz in Hspec. cbv zeta in Hspec.
    rewrite Hspec by lia.
    rewrite (Z.max_r 0 (53 - d)), (Z.max_l 0 (d - 53)) by lia.
    change (2 ^ (53 - 53) * 1) with 1. change (2 ^ 0) with 1.
    rewrite <- Hf. f_equal. lia.
  - rewrite shl_align_ge by lia.
    pose proof (binary_round_aux_spec false (Zpos m) 1 e
                  ltac:(lia) ltac:(lia)) as Hspec.
    rewrite Z.div_1_r, locate_exact in Hspec.
    change (Zdigits2 (Zpos m)) with d in Hspec. cbv zeta in Hspec.
    rewrite Hspec by lia.
    rewrite (Z.max_l 0 (53 - d)), (Z.max_r 0 (d - 53)) by lia.
    change (2 ^ 0) with 1. rewrite !Z.mul_1_r. reflexivity.
Qed.

Lemma binary_round_rounds (m : positive) (e B : Z) :
  let d := Zpos (digits2_pos m) in
  B <= 900 -> - B <= e + d - 53 -> e + d - 53 + 1 <= B -> -1000 <= e ->
  rounds B (Zpos m * 2 ^ (e + 1000)) 1 (binary_round prec emax false m e).
Proof.
  intros d HB Hlo Hhi He.
  pose proof (digits2_pos_bounds m) as Hb. fold d in Hb.
  assert (Hd : 0 < d) by (unfold d; lia).
  rewrite binary_round_spec by (fold d; lia). fold d.
  exists (Zpos m * 2 ^ Z.max 0 (53 - d)), (2 ^ Z.max 0 (d - 53)), (e + d - 53).
  assert (HQ : 0 < 2 ^ Z.max 0 (d - 53)) by (apply Z.pow_pos_nonneg; lia).
  split; [exact HQ|]. split; [|split; [lia|split; [lia|split; [|reflexivity]]]].
  - destruct (Z_lt_le_dec d 53) as [L|L].
    + rewrite (Z.max_r 0 (53 - d)), (Z.max_l 0 (d - 53)) by lia. change (2 ^ 0) with 1.
      assert (E1 : 2 ^ 52 = 2 ^ (d - 1) * 2 ^ (53 - d))
        by (rewrite <- Z.pow_add_r by lia; f_equal; lia).
      assert (E2 : 2 ^ 53 = 2 ^ d * 2 ^ (53 - d))
        by (rewrite <- Z.pow_add_r by lia; f_equal; lia).
      assert (0 < 2 ^ (53 - d)) by (apply Z.pow_pos_nonneg; lia).
      rewrite E1, E2, !Z.mul_1_r.
      split; [apply Z.mul_le_mono_nonneg_r; lia|].
      apply Z.mul_lt_mono_pos_r; lia.
    + rewrite (Z.max_l 0 (53 - d)), (Z.max_r 0 (d - 53)) by lia. change (2 ^ 0) with 1.
      assert (E1 : 2 ^ (d - 1) = 2 ^ 52 * 2 ^ (d - 53))
        by (rewrite <- Z.pow_add_r by lia; f_equal; lia).
      assert (E2 : 2 ^ d = 2 ^ 53 * 2 ^ (d - 53))
        by (rewrite <- Z.pow_add_r by lia; f_equal; lia).
      lia.
  - rewrite !Z.mul_1_r.
    destruct (Z_lt_le_dec d 53) as [L|L].
    + rewrite (Z.max_r 0 (53 - d)), (Z.max_l 0 (d - 53)) by lia. change (2 ^ 0) with 1.
      rewrite Z.mul_1_r, <- Z.mul_assoc, <- Z.pow_add_r by lia.
      f_equal. f_equal. lia.
    + rewrite (Z.max_l 0 (53 - d)), (Z.max_r 0 (d - 53)) by lia. change (2 ^ 0) with 1.
      rewrite Z.mul_1_r, <- !Z.mul_assoc, <- Z.pow_add_r by lia.
      f_equal. f_equal. lia.
Qed.

Lemma add_rounds B a b :
  B + 2 <= 900 -> 0 <= B -> normal B a -> normal B b ->
  rounds (B + 2) (sval a + sval b) 1 (SFadd prec emax a b).
Proof.
  intros HB HB0 Na Nb.
  destruct a as [| | |sa mx ex]; try contradiction.
  destruct b as [| | |sb my ey]; try contradiction.
  pose proof (normal_mantissa _ _ _ _ Na) as Hmx.
  pose proof (normal_mantissa _ _ _ _ Nb) as Hmy.
  destruct Na as (-> & Dx & Ex). destruct Nb as (-> & Dy & Ey).
  unfold SFadd, cond_Zopp.
  set (ez := Z.min ex ey).
  pose proof (shl_align_le mx ex ez ltac:(lia)) as [Hx _].
  pose proof (shl_align_le my ey ez ltac:(lia)) as [Hy _].
  set (px := fst (shl_align mx ex ez)) in *.
  set (py := fst (shl_align my ey ez)) in *.
  change (Zpos px + Zpos py) with (Zpos (px + py)).
  unfold binary_normalize.
  assert (Hsum : Zpos (px + py) * 2 ^ (ez + 1000)
                 = sval (S754_finite false mx ex) + sval (S754_finite false my ey)).
  { rewrite Pos2Z.inj_add, Hx, Hy. unfold sval.
    replace (2 ^ (ex + 1000)) with (2 ^ (ex - ez) * 2 ^ (ez + 1000))
      by (rewrite <- Z.pow_add_r by lia; f_equal; lia).
    replace (2 ^ (ey + 1000)) with (2 ^ (ey - ez) * 2 ^ (ez + 1000))
      by (rewrite <- Z.pow_add_r by lia; f_equal; lia).
    ring. }
  rewrite <- Hsum.
  pose proof (digits2_pos_bounds (px + py)) as Hd.
  set (d := Zpos (digits2_pos (px + py))) in *.
  assert (H1 : 0 < 2 ^ (ex - ez)) by (apply Z.pow_pos_nonneg; lia).
  assert (H2 : 0 < 2 ^ (ey - ez)) by (apply Z.pow_pos_nonneg; lia).
  assert (Hlow : 2 ^ 52 <= Zpos (px + py)) by (rewrite Pos2Z.inj_add; nia).
  set (M := Z.max ex ey).
  assert (H3 : 2 ^ (ex - ez) <= 2 ^ (M - ez)) by (apply Z.pow_le_mono_r; lia).
  assert (H4 : 2 ^ (ey - ez) <= 2 ^ (M - ez)) by (apply Z.pow_le_mono_r; lia).
  assert (Hup : Zpos (px + py) < 2 ^ (54 + (M - ez))).
  { rewrite Pos2Z.inj_add, Hx, Hy, Z.pow_add_r by lia.
    change (2 ^ 54) with (2 * 2 ^ 53). nia. }
  assert (Hd1 : 53 <= d).
  { apply Z.nlt_ge. intros C.
    assert (2 ^ d <= 2 ^ 52) by (apply Z.pow_le_mono_r; lia). lia. }
  assert (Hd2 : d <= 54 + (M - ez)).
  { apply Z.nlt_ge. intros C.
    assert (2 ^ (54 + (M - ez)) <= 2 ^ (d - 1)) by (apply Z.pow_le_mono_r; lia). lia. }
  apply binary_round_rounds; fold d; lia.
Qed.

Lemma new_location_locate P Q :
  0 < Q -> new_location Q (P mod Q) = locate P Q.
Proof.
  intros HQ. pose proof (Z.mod_pos_bound P Q HQ) as Hr.
  unfold new_location, new_location_even, new_location_odd, locate.
  set (r := P mod Q) in *.
  destruct (Z.even Q) eqn:Ev; [reflexivity|].
  destruct (Z.eqb_spec r 0); [reflexivity|]. f_equal.
  assert (Ho : Z.odd Q = true) by (rewrite <- Z.negb_even, Ev; reflexivity).
  apply Z.odd_spec in Ho. destruct Ho as [k Hk].
  destruct (Z.compare_spec (2 * r + 1) Q); destruct (Z.compare_spec (2 * r) Q);
    try reflexivity; lia.
Qed.

Lemma div_rounds B1 B2 a b :
  0 <= B1 -> 0 <= B2 -> B1 + B2 + 55 <= 900 -> normal B1 a -> normal B2 b ->
  rounds (B1 + B2 + 55) (sval a * 2 ^ 1000) (sval b) (SFdiv prec emax a b).
Proof.
  intros HB1 HB2 HB Na Nb.
  destruct a as [| | |sa mx ex]; try contradiction.
  destruct b as [| | |sb my ey]; try contradiction.
  pose proof (normal_mantissa _ _ _ _ Na) as Hmx.
  pose proof (normal_mantissa _ _ _ _ Nb) as Hmy.
  destruct Na as (-> & Dx & Ex). destruct Nb as (-> & Dy & Ey).
  unfold SFdiv, SFdiv_core_binary. simpl xorb.
  change (Zdigits2 (Zpos mx)) with (Zpos (digits2_pos mx)).
  change (Zdigits2 (Zpos my)) with (Zpos (digits2_pos my)).
  rewrite Dx, Dy, fexp_normal by lia.
  replace (Z.min (53 + ex - (53 + ey) - 53) (ex - ey)) with (ex - ey - 53) by lia.
  replace (ex - ey - (ex - ey - 53)) with 53 by lia.
  rewrite Z.shiftl_mul_pow2 by lia.
  set (P := Zpos mx * 2 ^ 53).
  pose proof (Z.div_mod P (Zpos my) ltac:(lia)) as Hdm.
  pose proof (Z.mod_pos_bound P (Zpos my) ltac:(lia)) as Hr.
  unfold Z.div, Z.modulo in Hdm, Hr.
  pose proof (new_location_locate P (Zpos my) ltac:(lia)) as Hloc.
  assert (Hq : fst (Z.div_eucl P (Zpos my)) = P / Zpos my) by reflexivity.
  assert (Hrm : snd (Z.div_eucl P (Zpos my)) = P mod Zpos my) by reflexivity.
  destruct (Z.div_eucl P (Zpos my)) as [q r]. simpl in Hq, Hrm. subst q r.
  rewrite Hloc. clear Hloc.
  set (q := P / Zpos my) in *. set (r := P mod Zpos my) in *.
  assert (Hq1 : 2 ^ 52 <= q).
  { apply Z.div_le_lower_bound; [lia|]. unfold P.
    change (2 ^ 53) with (2 * 2 ^ 52) in *. nia. }
  assert (Hq2 : q < 2 ^ 54).
  { apply Z.div_lt_upper_bound; [lia|]. unfold P.
    change (2 ^ 54) with (2 ^ 53 * 2) in *. change (2 ^ 53) with (2 * 2 ^ 52) in *. nia. }
  pose proof (Zdigits2_bounds q ltac:(lia)) as Hd.
  set (d := Zdigits2 q) in *.
  assert (Hd1 : 53 <= d).
  { apply Z.nlt_ge. intros C.
    assert (2 ^ d <= 2 ^ 52) by (apply Z.pow_le_mono_r; lia). lia. }
  assert (Hd2 : d <= 54).
  { apply Z.nlt_ge. intros C.
    assert (2 ^ 54 <= 2 ^ (d - 1)) by (apply Z.pow_le_mono_r; lia). lia. }
  pose proof (binary_round_aux_spec false P (Zpos my) (ex - ey - 53)
                ltac:(unfold P; lia) ltac:(lia)) as Hspec.
  fold q d in Hspec. cbv zeta in Hspec.
  rewrite Hspec by lia. clear Hspec.
  exists P, (2 ^ (d - 53) * Zpos my), (ex - ey - 53 + d - 53).
  assert (Hpd : 0 < 2 ^ (d - 53)) by (apply Z.pow_pos_nonneg; lia).
  assert (E1 : 2 ^ (d - 1) = 2 ^ 52 * 2 ^ (d - 53))
    by (rewrite <- Z.pow_add_r by lia; f_equal; lia).
  assert (E2 : 2 ^ d = 2 ^ 53 * 2 ^ (d - 53))
    by (rewrite <- Z.pow_add_r by lia; f_equal; lia).
  split; [lia|]. split; [|split; [lia|split; [lia|split; [|reflexivity]]]].
  - split.
    + replace (2 ^ 52 * (2 ^ (d - 53) * Zpos my)) with (Zpos my * 2 ^ (d - 1))
        by (rewrite E1; ring).
      assert (Zpos my * 2 ^ (d - 1) <= Zpos my * q)
        by (apply Z.mul_le_mono_nonneg_l; lia).
      lia.
    + replace (2 ^ 53 * (2 ^ (d - 53) * Zpos my)) with (Zpos my * 2 ^ d)
        by (rewrite E2; ring).
      assert (Zpos my * (q + 1) <= Zpos my * 2 ^ d)
        by (apply Z.mul_le_mono_nonneg_l; lia).
      lia.
  - unfold sval, P.
    assert (Hpow : 2 ^ 53 * 2 ^ (ex - ey - 53 + d - 53 + 1000) * 2 ^ (ey + 1000)
                   = 2 ^ (ex + 1000) * 2 ^ 1000 * 2 ^ (d - 53)).
    { rewrite <- !Z.pow_add_r by lia. f_equal. lia. }
    replace (Zpos mx * 2 ^ 53 * 2 ^ (ex - ey - 53 + d - 53 + 1000)
             * (Zpos my * 2 ^ (ey + 1000)))
      with (Zpos mx * Zpos my
            * (2 ^ 53 * 2 ^ (ex - ey - 53 + d - 53 + 1000) * 2 ^ (ey + 1000)))
      by ring.
    rewrite Hpow. ring.
Qed.

(** ** Zero and the positive normal floats together *)

Lemma rounds_weaken B B' num den f :
  B <= B' -> rounds B num den f -> rounds B' num den f.
Proof.
  intros HB (P & Q & e & HQ & HP & H1 & H2 & V & E).
  exists P, Q, e. repeat split; try assumption; lia.
Qed.

Lemma rounds0_nonneg B num den f : rounds0 B num den f -> nonneg B f.
Proof.
  intros [[_ ->]|[_ R]]; [left; reflexivity | right].
  eapply rounds_normal; eauto.
Qed.

Lemma nonneg_weaken B B' f : B <= B' -> nonneg B f -> nonneg B' f.
Proof. intros HB [H|H]; [left; exact H | right; eapply normal_weaken; eauto]. Qed.

Lemma sval_pos B f : B <= 1000 -> normal B f -> 0 < sval f.
Proof.
  destruct f as [| | |s m e]; try contradiction.
  intros HB (_ & _ & He). unfold sval.
  pose proof (scale_pos e ltac:(lia)). nia.
Qed.

Lemma sval_nonneg B f : B <= 1000 -> nonneg B f -> 0 <= sval f.
Proof.
  intros HB [->|N]; [simpl; lia|]. pose proof (sval_pos _ _ HB N). lia.
Qed.

Lemma fle0_sval a b :
  nonneg 1000 a -> nonneg 1000 b -> (fle a b <-> sval a <= sval b).
Proof.
  intros [->|Na] [->|Nb].
  - unfold fle. simpl. split; [lia | auto].
  - pose proof (sval_pos 1000 _ ltac:(lia) Nb) as Hp.
    destruct b as [| | |s m e]; try contradiction. destruct Nb as (-> & _).
    unfold fle. simpl SFcompare. change (sval (S754_zero false)) with 0.
    split; [lia | auto].
  - pose proof (sval_pos 1000 _ ltac:(lia) Na) as Hp.
    destruct a as [| | |s m e]; try contradiction. destruct Na as (-> & _).
    unfold fle. simpl SFcompare. change (sval (S754_zero false)) with 0.
    split; [intros [?|?]; discriminate | lia].
  - apply fle_sval; assumption.
Qed.

Lemma rounds0_mono B num den f B' num' den' f' :
  B <= 1000 -> B' <= 1000 -> 0 < den -> 0 < den' ->
  rounds0 B num den f -> rounds0 B' num' den' f' ->
  num * den' <= num' * den -> fle f f'.
Proof.
  intros HB HB' Hd Hd' [[Hn ->]|[Hn R]] [[Hn' ->]|[Hn' R']] Hle.
  - right. reflexivity.
  - pose proof (rounds_normal _ _ _ _ R') as N.
    destruct f' as [| | |s m e]; try contradiction. destruct N as (-> & _).
    left. reflexivity.
  - exfalso. subst num'. nia.
  - exact (rounds_mono _ _ _ _ _ _ _ _ HB HB' Hd Hd' R R' Hle).
Qed.

Lemma of_int_pos (n : Z) :
  0 < n < 2 ^ 53 ->
  normal 53 (of_int n) /\ sval (of_int n) = n * 2 ^ 1000.
Proof.
  intros Hn. destruct n as [|p|p]; try lia.
  unfold of_int, binary_normalize.
  pose proof (digits2_pos_bounds p) as Hb.
  set (d := Zpos (digits2_pos p)) in *.
  assert (Hd : 0 < d) by (unfold d; lia).
  assert (Hd' : d <= 53).
  { apply Z.nlt_ge. intros C.
    assert (2 ^ 53 <= 2 ^ (d - 1)) by (apply Z.pow_le_mono_r; lia). lia. }
  rewrite binary_round_spec by (fold d; lia). fold d.
  rewrite (Z.max_r 0 (53 - d)), (Z.max_l 0 (d - 53)) by lia.
  change (2 ^ 0) with 1.
  assert (E1 : 2 ^ 52 = 2 ^ (d - 1) * 2 ^ (53 - d))
    by (rewrite <- Z.pow_add_r by lia; f_equal; lia).
  assert (E2 : 2 ^ 53 = 2 ^ d * 2 ^ (53 - d))
    by (rewrite <- Z.pow_add_r by lia; f_equal; lia).
  assert (H0 : 0 < 2 ^ (53 - d)) by (apply Z.pow_pos_nonneg; lia).
  assert (HP : 2 ^ 52 * 1 <= Zpos p * 2 ^ (53 - d) < 2 ^ 53 * 1).
  { rewrite E1, E2, !Z.mul_1_r.
    split; [apply Z.mul_le_mono_nonneg_r; lia | apply Z.mul_lt_mono_pos_r; lia]. }
  split.
  - apply round_to_is_normal; lia.
  - rewrite round_to_sval by lia.
    unfold rne. rewrite locate_exact, Z.div_1_r. simpl round_nearest_even.
    rewrite <- Z.mul_assoc, <- Z.pow_add_r by lia. f_equal. f_equal. lia.
Qed.

Lemma of_int_nonneg (n : Z) :
  0 <= n < 2 ^ 53 ->
  nonneg 53 (of_int n) /\ sval (of_int n) = n * 2 ^ 1000.
Proof.
  intros Hn. destruct (Z.eq_dec n 0) as [->|Hz].
  - split; [left; reflexivity | reflexivity].
  - destruct (of_int_pos n ltac:(lia)) as [N V]. split; [right; exact N | exact V].
Qed.

Lemma div_rounds0 B1 B2 a b :
  0 <= B1 -> 0 <= B2 -> B1 + B2 + 55 <= 900 -> nonneg B1 a -> normal B2 b ->
  rounds0 (B1 + B2 + 55) (sval a * 2 ^ 1000) (sval b) (div a b).
Proof.
  intros HB1 HB2 HB [->|Na] Nb.
  - left. split; [reflexivity|].
    destruct b as [| | |s m e]; try contradiction. destruct Nb as (-> & _).
    reflexivity.
  - right. split.
    + pose proof (sval_pos B1 _ ltac:(lia) Na). lia.
    + apply div_rounds; assumption.
Qed.

Lemma add_rounds0 B a b :
  B + 2 <= 900 -> 0 <= B -> nonneg B a -> nonneg B b ->
  rounds0 (B + 2) (sval a + sval b) 1 (add a b).
Proof.
  intros HB HB0 [->|Na] [->|Nb].
  - left. split; reflexivity.
  - right. simpl sval. split; [apply (sval_pos B); [lia | exact Nb]|].
    replace (add (S754_zero false) b) with b
      by (destruct b; try contradiction; reflexivity).
    apply (rounds_weaken (B + 1)); [lia|]. apply rounds_exact. exact Nb.
  - right. simpl sval. rewrite Z.add_0_r.
    split; [apply (sval_pos B); [lia | exact Na]|].
    replace (add a (S754_zero false)) with a
      by (destruct a; try contradiction; reflexivity).
    apply (rounds_weaken (B + 1)); [lia|]. apply rounds_exact. exact Na.
  - right. split.
    + pose proof (sval_pos B a ltac:(lia) Na). pose proof (sval_pos B b ltac:(lia) Nb). lia.
    + apply add_rounds; assumption.
Qed.

End Rounding.

(** ** [time.Hours] and the day count never decrease *)

Module Monotone.

Import Rnd Rounding.

Lemma hour_float :
  normal 11 (F64.of_int (60 * 60 * 1000000000))
  /\ sval (F64.of_int (60 * 60 * 1000000000)) = time.Hour * 2 ^ 1000.
Proof.
  split.
  - vm_compute. repeat split; intros H; discriminate H.
  - apply (of_int_pos (60 * 60 * 1000000000)). vm_compute. split; reflexivity.
Qed.

Lemma twenty_four_float :
  normal 48 (F64.of_int 24) /\ sval (F64.of_int 24) = 24 * 2 ^ 1000.
Proof.
  split.
  - vm_compute. repeat split; intros H; discriminate H.
  - apply (of_int_pos 24). vm_compute. split; reflexivity.
Qed.

Lemma Hour_pos : 0 < time.Hour.
Proof. reflexivity. Qed.

Lemma frac_rounds0 (n : Z) :
  0 <= n < time.Hour ->
  rounds0 119 (n * 2 ^ 1000 * 2 ^ 1000) (time.Hour * 2 ^ 1000) (frac n).
Proof.
  intros Hn. destruct hour_float as [NC VC].
  assert (Hn' : 0 <= n < 2 ^ 53).
  { split; [lia|]. apply Z.lt_trans with time.Hour; [lia | reflexivity]. }
  destruct (of_int_nonneg n Hn') as [Nn Vn].
  rewrite <- Vn, <- VC.
  apply (div_rounds0 53 11); try lia; assumption.
Qed.

Lemma scale_1000_pos : 0 < 2 ^ 1000.
Proof. apply Z.pow_pos_nonneg; lia. Qed.

Lemma frac_nonneg (n : Z) : 0 <= n < time.Hour -> nonneg 119 (frac n).
Proof. intros Hn. eapply rounds0_nonneg, frac_rounds0, Hn. Qed.

Lemma frac_mono (n n' : Z) :
  0 <= n -> n <= n' -> n' < time.Hour -> sval (frac n) <= sval (frac n').
Proof.
  intros H0 H1 H2.
  pose proof scale_1000_pos as HK. pose proof Hour_pos as HH.
  apply fle0_sval.
  - eapply nonneg_weaken; [|apply frac_nonneg]; lia.
  - eapply nonneg_weaken; [|apply frac_nonneg]; lia.
  - assert (Hden : 0 < time.Hour * 2 ^ 1000) by (apply Z.mul_pos_pos; assumption).
    refine (rounds0_mono 119 _ _ _ 119 _ _ _ ltac:(lia) ltac:(lia) Hden Hden
              (frac_rounds0 n ltac:(lia)) (frac_rounds0 n' ltac:(lia)) _).
    apply Z.mul_le_mono_nonneg_r; [lia|].
    apply Z.mul_le_mono_nonneg_r; [lia|].
    apply Z.mul_le_mono_nonneg_r; lia.
Qed.

Lemma frac_below_one (n : Z) : 0 <= n < time.Hour -> sval (frac n) <= 2 ^ 1000.
Proof.
  intros Hn.
  apply Z.le_trans with (sval (frac (time.Hour - 1))).
  - apply frac_mono; lia.
  - apply Z.leb_le. vm_compute. reflexivity.
Qed.

Lemma Hours_nonneg_eq (d : time.Duration) :
  0 <= d ->
  time.Hours d = F64.add (F64.of_int (d / time.Hour)) (frac (d mod time.Hour)).
Proof.
  intros Hd. unfold time.Hours, frac.
  rewrite Z.quot_div_nonneg, Z.rem_mod_nonneg by (try apply Hour_pos; lia).
  reflexivity.
Qed.

Lemma hours_small (d : time.Duration) :
  0 <= d <= 2 ^ 63 -> 0 <= d / time.Hour < 2 ^ 53.
Proof.
  intros Hd. pose proof Hour_pos. split.
  - apply Z.div_pos; lia.
  - apply Z.div_lt_upper_bound; [lia|].
    apply Z.le_lt_trans with (2 ^ 63); [lia | reflexivity].
Qed.

Lemma Hours_rounds0 (d : time.Duration) :
  0 <= d <= 2 ^ 63 ->
  rounds0 121 ((d / time.Hour) * 2 ^ 1000 + sval (frac (d mod time.Hour))) 1
          (time.Hours d).
Proof.
  intros Hd. rewrite Hours_nonneg_eq by lia.
  destruct (of_int_nonneg _ (hours_small d Hd)) as [Nh Vh].
  rewrite <- Vh.
  apply (add_rounds0 119); try lia.
  - eapply nonneg_weaken; [|exact Nh]. lia.
  - apply frac_nonneg. apply Z.mod_pos_bound, Hour_pos.
Qed.

Lemma Hours_is_nonneg (d : time.Duration) :
  0 <= d <= 2 ^ 63 -> nonneg 121 (time.Hours d).
Proof. intros Hd. eapply rounds0_nonneg, Hours_rounds0, Hd. Qed.

Lemma Hours_mono (d d' : time.Duration) :
  0 <= d -> d <= d' -> d' <= 2 ^ 63 ->
  sval (time.Hours d) <= sval (time.Hours d').
Proof.
  intros H0 H1 H2. pose proof Hour_pos as HH. pose proof scale_1000_pos as HK.
  apply fle0_sval.
  - eapply nonneg_weaken; [|apply Hours_is_nonneg]; lia.
  - eapply nonneg_weaken; [|apply Hours_is_nonneg]; lia.
  - refine (rounds0_mono 121 _ 1 _ 121 _ 1 _ ltac:(lia) ltac:(lia) ltac:(lia)
              ltac:(lia) (Hours_rounds0 d ltac:(lia)) (Hours_rounds0 d' ltac:(lia)) _).
    rewrite !Z.mul_1_r.
    pose proof (Z.mod_pos_bound d time.Hour HH) as Hn.
    pose proof (Z.mod_pos_bound d' time.Hour HH) as Hn'.
    pose proof (Z.div_mod d time.Hour ltac:(lia)) as E.
    pose proof (Z.div_mod d' time.Hour ltac:(lia)) as E'.
    pose proof (Z.div_le_mono d d' time.Hour HH H1) as Hh.
    destruct (Z.eq_dec (d / time.Hour) (d' / time.Hour)) as [Eh|Eh].
    + rewrite Eh. apply Z.add_le_mono_l. apply frac_mono; lia.
    + pose proof (frac_below_one _ Hn).
      pose proof (sval_nonneg 119 _ ltac:(lia) (frac_nonneg _ Hn')).
      nia.
Qed.

Lemma day_count_rounds0 (d : time.Duration) :
  0 <= d <= 2 ^ 63 ->
  rounds0 224 (sval (time.Hours d) * 2 ^ 1000) (24 * 2 ^ 1000) (day_count d).
Proof.
  intros Hd. destruct twenty_four_float as [N V]. rewrite <- V.
  apply (div_rounds0 121 48); try lia; [apply Hours_is_nonneg; lia | exact N].
Qed.

Lemma day_count_is_nonneg (d : time.Duration) :
  0 <= d <= 2 ^ 63 -> nonneg 224 (day_count d).
Proof. intros Hd. eapply rounds0_nonneg, day_count_rounds0, Hd. Qed.

(** The day count of a longer duration is not smaller. *)
Lemma day_count_mono (d d' : time.Duration) :
  0 <= d -> d <= d' -> d' <= 2 ^ 63 -> fle (day_count d) (day_count d').
Proof.
  intros H0 H1 H2. pose proof scale_1000_pos as HK.
  refine (rounds0_mono 224 _ (24 * 2 ^ 1000) _ 224 _ (24 * 2 ^ 1000) _
            ltac:(lia) ltac:(lia) ltac:(lia)
            ltac:(lia) (day_count_rounds0 d ltac:(lia))
            (day_count_rounds0 d' ltac:(lia)) _).
  apply Z.mul_le_mono_nonneg_r; [lia|].
  apply Z.mul_le_mono_nonneg_r; [lia|].
  apply Hours_mono; lia.
Qed.

Lemma gt_not_fle (x y : F64.t) : F64.gt x y = true -> ~ fle x y.
Proof.
  unfold F64.gt, fle. destruct (SFcompare x y) as [[]|]; try discriminate.
  intros _ [H|H]; discriminate H.
Qed.

End Monotone.

(** ** Negative durations: the mirror image *)

Module Mirror.

Import Rnd Rounding Monotone.

Lemma binary_round_aux_opp (m e : Z) (l : location) :
  binary_round_aux F64.prec F64.emax true m e l
  = SFopp (binary_round_aux F64.prec F64.emax false m e l).
Proof.
  unfold binary_round_aux.
  destruct (shr_fexp F64.prec F64.emax m e l) as [mrs' e'].
  destruct (shr_fexp F64.prec F64.emax _ e' loc_Exact) as [mrs'' e''].
  destruct (shr_m mrs'') as [|p|p]; try reflexivity.
  destruct (e'' <=? F64.emax - F64.prec); reflexivity.
Qed.

Lemma binary_round_opp (m : positive) (e : Z) :
  binary_round F64.prec F64.emax true m e
  = SFopp (binary_round F64.prec F64.emax false m e).
Proof.
  unfold binary_round.
  destruct (shl_align m e _) as [mz ez]. apply binary_round_aux_opp.
Qed.

Lemma SFopp_involutive (x : spec_float) : SFopp (SFopp x) = x.
Proof. destruct x as [[]|[]| |[] m e]; reflexivity. Qed.

Lemma of_int_opp (n : Z) : 0 < n -> F64.of_int (- n) = SFopp (F64.of_int n).
Proof.
  intros Hn. destruct n as [|p|p]; try lia.
  unfold F64.of_int. simpl binary_normalize. apply binary_round_opp.
Qed.

(** Division by a positive float commutes with negation. *)
Lemma div_opp (B : Z) (x c : spec_float) :
  normal B c -> F64.div (SFopp x) c = SFopp (F64.div x c).
Proof.
  destruct c as [| | |s m e]; try contradiction. intros (-> & _).
  unfold F64.div.
  destruct x as [[]|[]| |[] mx ex]; try reflexivity; unfold SFopp at 1, SFdiv;
    simpl xorb;
    destruct (SFdiv_core_binary F64.prec F64.emax (Zpos mx) ex (Zpos m) e)
      as [[mz ez] lz].
  - rewrite binary_round_aux_opp, SFopp_involutive. reflexivity.
  - apply binary_round_aux_opp.
Qed.

(** Two positive normal floats, negated, add up to the negated sum. *)
Lemma add_opp (B : Z) (a b : spec_float) :
  normal B a -> normal B b ->
  F64.add (SFopp a) (SFopp b) = SFopp (F64.add a b).
Proof.
  intros Na Nb.
  destruct a as [| | |sa mx ex]; try contradiction.
  destruct b as [| | |sb my ey]; try contradiction.
  destruct Na as (-> & _). destruct Nb as (-> & _).
  unfold F64.add, SFadd, SFopp at 1 2, cond_Zopp. simpl negb.
  set (px := fst (shl_align mx ex (Z.min ex ey))).
  set (py := fst (shl_align my ey (Z.min ex ey))).
  change (- Zpos px + - Zpos py) with (Zneg (px + py)).
  change (Zpos px + Zpos py) with (Zpos (px + py)).
  unfold binary_normalize. apply binary_round_opp.
Qed.

Lemma frac_opp (n : Z) :
  0 < n < time.Hour ->
  F64.div (F64.of_int (- n)) (F64.of_int (60 * 60 * 1000000000))
  = SFopp (frac n).
Proof.
  intros Hn. rewrite of_int_opp by lia.
  unfold frac. apply (div_opp 11), hour_float.
Qed.

Lemma Hours_opp (d : time.Duration) :
  0 < d <= 2 ^ 63 -> time.Hours (- d) = SFopp (time.Hours d).
Proof.
  intros Hd. pose proof Hour_pos as HH.
  rewrite (Hours_nonneg_eq d) by lia.
  unfold time.Hours.
  rewrite Z.quot_opp_l, Z.rem_opp_l by lia.
  rewrite Z.quot_div_nonneg, Z.rem_mod_nonneg by lia.
  pose proof (Z.mod_pos_bound d time.Hour HH) as Hn.
  pose proof (hours_small d ltac:(lia)) as Hh.
  pose proof (Z.div_mod d time.Hour ltac:(lia)) as E.
  set (h := d / time.Hour) in *. set (n := d mod time.Hour) in *.
  destruct (Z.eq_dec h 0) as [Eh|Eh]; destruct (Z.eq_dec n 0) as [En|En].
  - lia.
  - rewrite Eh. change (- 0) with 0. rewrite frac_opp by lia.
    change (F64.of_int 0) with (S754_zero false).
    pose proof (frac_rounds0 n ltac:(lia)) as [[Z0 _]|[_ R]].
    + pose proof scale_1000_pos. nia.
    + apply rounds_normal in R.
      destruct (frac n) as [| | |s m e]; try contradiction. reflexivity.
  - rewrite En. change (- 0) with 0. rewrite of_int_opp by lia.
    destruct (of_int_pos h ltac:(lia)) as [N _].
    change (frac 0) with (S754_zero false).
    change (F64.div (F64.of_int 0) (F64.of_int (60 * 60 * 1000000000)))
      with (S754_zero false).
    destruct (F64.of_int h) as [| | |s m e]; try contradiction. reflexivity.
  - rewrite frac_opp, of_int_opp by lia.
    destruct (of_int_pos h ltac:(lia)) as [N _].
    pose proof (frac_rounds0 n ltac:(lia)) as [[Z0 _]|[_ R]].
    + pose proof scale_1000_pos. nia.
    + apply rounds_normal in R.
      apply (add_opp 119); [eapply normal_weaken; [|exact N]; lia | exact R].
Qed.

Lemma day_count_opp (d : time.Duration) :
  0 < d <= 2 ^ 63 -> day_count (- d) = SFopp (day_count d).
Proof.
  intros Hd. unfold day_count, div24. rewrite Hours_opp by lia.
  apply (div_opp 48), twenty_four_float.
Qed.

(** Negation reverses the order of two non-negative floats, and puts
    every one of them below every non-negative float. *)
Lemma fle_opp (a b : spec_float) :
  nonneg 1000 a -> nonneg 1000 b -> fle a b -> fle (SFopp b) (SFopp a).
Proof.
  intros [->|Na] [->|Nb]; unfold fle.
  - auto.
  - destruct b as [| | |s m e]; try contradiction. destruct Nb as (-> & _).
    simpl. auto.
  - destruct a as [| | |s m e]; try contradiction. destruct Na as (-> & _).
    simpl. intros [H|H]; discriminate H.
  - destruct a as [| | |sa ma ea]; try contradiction.
    destruct b as [| | |sb mb eb]; try contradiction.
    destruct Na as (-> & _). destruct Nb as (-> & _).
    simpl SFopp. simpl SFcompare.
    rewrite (Z.compare_antisym ea eb).
    change (Pos.compare_cont Eq mb ma) with (Pos.compare mb ma).
    change (Pos.compare_cont Eq ma mb) with (Pos.compare ma mb).
    rewrite (Pos.compare_antisym ma mb).
    destruct (ea ?= eb); simpl; try tauto.
    destruct (ma ?= mb)%positive; simpl; tauto.
Qed.

Lemma fle_opp_nonneg (a b : spec_float) :
  nonneg 1000 a -> nonneg 1000 b -> fle (SFopp a) b.
Proof.
  intros [->|Na] [->|Nb]; unfold fle.
  - simpl. auto.
  - destruct b as [| | |s m e]; try contradiction. destruct Nb as (-> & _).
    simpl. auto.
  - destruct a as [| | |s m e]; try contradiction. destruct Na as (-> & _).
    simpl. auto.
  - destruct a as [| | |sa ma ea]; try contradiction.
    destruct b as [| | |sb mb eb]; try contradiction.
    destruct Na as (-> & _). destruct Nb as (-> & _).
    simpl. auto.
Qed.

(** Over the whole range of [time.Duration]: a longer duration never has a
    smaller day count. *)
Lemma day_count_mono_int64 (d d' : time.Duration) :
  - 2 ^ 63 <= d -> d <= d' -> d' <= 2 ^ 63 -> fle (day_count d) (day_count d').
Proof.
  intros H0 H1 H2.
  destruct (Z_lt_le_dec d 0) as [Ld|Ld]; [|apply day_count_mono; lia].
  replace d with (- (- d)) by lia. rewrite (day_count_opp (- d)) by lia.
  destruct (Z_lt_le_dec d' 0) as [Ld'|Ld'].
  - replace d' with (- (- d')) by lia. rewrite (day_count_opp (- d')) by lia.
    apply fle_opp.
    + eapply nonneg_weaken; [|apply day_count_is_nonneg]; lia.
    + eapply nonneg_weaken; [|apply day_count_is_nonneg]; lia.
    + apply day_count_mono; lia.
  - apply fle_opp_nonneg.
    + eapply nonneg_weaken; [|apply day_count_is_nonneg]; lia.
    + eapply nonneg_weaken; [|apply day_count_is_nonneg]; lia.
Qed.

End Mirror.

(** ** What [staleness] returns *)

Module Staleness.

Import Rnd Rounding Monotone Mirror.

Lemma staleness_eq (since threshold : time.Duration) :
  staleness since threshold
  = if F64.gt (day_count since) (day_count threshold)
    then (true, time.wrap64 (F64.to_int64 (day_count since) * time.Hour))
    else (false, 0).
Proof. reflexivity. Qed.

Lemma int64_range (d : Z) : in_int64 d -> - 2 ^ 63 <= d <= 2 ^ 63.
Proof. unfold in_int64, time.minDuration, time.maxDuration. lia. Qed.

(** Stale only if strictly older than the threshold. *)
Lemma stale_only_if_older (since threshold : time.Duration) :
  in_int64 since -> in_int64 threshold ->
  fst (staleness since threshold) = true -> threshold < since.
Proof.
  intros Hs Ht. apply int64_range in Hs, Ht. rewrite staleness_eq.
  destruct (F64.gt (day_count since) (day_count threshold)) eqn:G;
    [|discriminate].
  intros _. apply Z.nle_gt. intros Hle.
  apply (gt_not_fle _ _ G). apply day_count_mono_int64; lia.
Qed.

Lemma compare_nonneg_total (a b : spec_float) :
  nonneg 1000 a -> nonneg 1000 b -> SFcompare a b <> None.
Proof.
  intros [->|Na] [->|Nb].
  - discriminate.
  - destruct b; try contradiction. discriminate.
  - destruct a; try contradiction. discriminate.
  - destruct a; try contradiction. destruct b; try contradiction. discriminate.
Qed.

Lemma gt_sval (a b : spec_float) :
  nonneg 1000 a -> nonneg 1000 b -> (F64.gt a b = true <-> sval b < sval a).
Proof.
  intros Na Nb. pose proof (fle0_sval a b Na Nb) as H.
  pose proof (compare_nonneg_total a b Na Nb) as T.
  unfold F64.gt, fle in *.
  destruct (SFcompare a b) as [[]|]; try congruence.
  - split; [discriminate|]. intros L.
    assert (sval a <= sval b) by (apply H; auto). lia.
  - split; [discriminate|]. intros L.
    assert (sval a <= sval b) by (apply H; auto). lia.
  - split; [intros _|reflexivity]. apply Z.nle_gt. intros L.
    apply H in L. destruct L as [L|L]; discriminate L.
Qed.

Lemma day_count_sval_mono (d d' : time.Duration) :
  0 <= d -> d <= d' -> d' <= 2 ^ 63 -> sval (day_count d) <= sval (day_count d').
Proof.
  intros H0 H1 H2. apply fle0_sval.
  - eapply nonneg_weaken; [|apply day_count_is_nonneg]; lia.
  - eapply nonneg_weaken; [|apply day_count_is_nonneg]; lia.
  - apply day_count_mono; lia.
Qed.

(** With the threshold of [main], 90 days, the test is exact. *)
Lemma stale_iff_older_main_threshold (since : time.Duration) :
  in_int64 since ->
  (fst (staleness since main_threshold) = true <-> main_threshold < since).
Proof.
  intros Hs. split.
  - apply stale_only_if_older; [exact Hs|]. vm_compute. split; discriminate.
  - intros Hlt. apply int64_range in Hs. rewrite staleness_eq.
    assert (Hm : 0 <= main_threshold /\ main_threshold + 1 <= 2 ^ 63)
      by (vm_compute; split; discriminate).
    assert (G : F64.gt (day_count since) (day_count main_threshold) = true).
    { apply gt_sval.
      - eapply nonneg_weaken; [|apply day_count_is_nonneg]; lia.
      - eapply nonneg_weaken; [|apply day_count_is_nonneg]; lia.
      - apply Z.lt_le_trans with (sval (day_count (main_threshold + 1))).
        + apply Z.ltb_lt. vm_compute. reflexivity.
        + apply day_count_sval_mono; lia. }
    rewrite G. reflexivity.
Qed.

(** *** The age of a stale branch *)

Lemma trunc_nonneg (f : spec_float) :
  nonneg 1000 f -> F64.trunc f = Some (sval f / 2 ^ 1000).
Proof.
  intros [->|N]; [reflexivity|].
  destruct f as [| | |s m e]; try contradiction.
  destruct N as (-> & _ & He). unfold F64.trunc, sval. f_equal.
  destruct e as [|p|p].
  - rewrite Z.div_mul by (apply Z.pow_nonzero; lia). reflexivity.
  - rewrite Z.pow_add_r, Z.mul_assoc, Z.div_mul by (try apply Z.pow_nonzero; lia).
    reflexivity.
  - replace (2 ^ 1000) with (2 ^ Zpos p * 2 ^ (Zneg p + 1000))
      by (rewrite <- Z.pow_add_r by lia; f_equal; lia).
    rewrite Z.div_mul_cancel_r; try apply Z.pow_nonzero; lia.
Qed.

Lemma trunc_opp (f : spec_float) :
  nonneg 1000 f -> F64.trunc (SFopp f) = option_map Z.opp (F64.trunc f).
Proof.
  intros [->|N]; [reflexivity|].
  destruct f as [| | |s m e]; try contradiction.
  destruct N as (-> & _). reflexivity.
Qed.

Lemma whole_days_nonneg (d : time.Duration) :
  0 <= d <= 2 ^ 63 ->
  F64.trunc (day_count d) = Some (sval (day_count d) / 2 ^ 1000)
  /\ 0 <= sval (day_count d) / 2 ^ 1000 <= 106751.
Proof.
  intros Hd. pose proof scale_1000_pos as HK.
  assert (N : nonneg 1000 (day_count d))
    by (eapply nonneg_weaken; [|apply day_count_is_nonneg]; lia).
  split; [apply trunc_nonneg, N|]. split.
  - apply Z.div_pos; [|lia]. apply (sval_nonneg 1000); [lia | exact N].
  - apply Z.le_trans with (sval (day_count (2 ^ 63)) / 2 ^ 1000).
    + apply Z.div_le_mono; [lia|]. apply day_count_sval_mono; lia.
    + apply Z.leb_le. vm_compute. reflexivity.
Qed.

(** The whole-day count of a duration that fits [int64] is small enough
    for line 81 not to overflow. *)
Lemma whole_days_bound (d : time.Duration) :
  in_int64 d ->
  F64.to_int64 (day_count d) * time.Hour
  = time.wrap64 (F64.to_int64 (day_count d) * time.Hour)
  /\ -106751 <= F64.to_int64 (day_count d) <= 106751.
Proof.
  intros Hd. apply int64_range in Hd.
  assert (Hn : exists n, F64.trunc (day_count d) = Some n /\ -106751 <= n <= 106751).
  { destruct (Z_lt_le_dec d 0) as [L|L].
    - replace d with (- (- d)) by lia. rewrite (day_count_opp (- d)) by lia.
      destruct (whole_days_nonneg (- d) ltac:(lia)) as [T B].
      rewrite trunc_opp, T
        by (eapply nonneg_weaken; [|apply day_count_is_nonneg]; lia).
      eexists. split; [reflexivity|]. lia.
    - destruct (whole_days_nonneg d ltac:(lia)) as [T B].
      eexists. split; [exact T|]. lia. }
  destruct Hn as (n & T & B).
  unfold F64.to_int64. rewrite T.
  replace ((F64.min_int64 <=? n) && (n <=? F64.max_int64)) with true.
  2:{ symmetry. apply andb_true_intro. unfold F64.min_int64, F64.max_int64.
      split; [apply Z.leb_le | apply Z.leb_le]; lia. }
  split; [|exact B].
  unfold time.wrap64. symmetry.
  assert (R : - 2 ^ 63 <= n * time.Hour < 2 ^ 63).
  { change time.Hour with 3600000000000. lia. }
  rewrite Z.mod_small by lia. lia.
Qed.

(** The age returned: zero unless stale, and then a whole number of
    hours. *)
Lemma staleness_age (since threshold : time.Duration) :
  in_int64 since ->
  (fst (staleness since threshold) = false -> snd (staleness since threshold) = 0)
  /\ (fst (staleness since threshold) = true ->
      exists n, snd (staleness since threshold) = n * time.Hour).
Proof.
  intros Hs. rewrite staleness_eq.
  destruct (F64.gt (day_count since) (day_count threshold)); simpl.
  - split; [discriminate|]. intros _.
    exists (F64.to_int64 (day_count since)).
    symmetry. apply whole_days_bound, Hs.
  - split; [reflexivity | discriminate].
Qed.

(** *** Which whole number *)

Lemma day_count_whole_days (k : Z) :
  0 <= k <= 106751 -> sval (day_count (days k)) = k * 2 ^ 1000.
Proof.
  intros Hk. pose proof scale_1000_pos as HK.
  assert (Hd : 0 <= days k <= 2 ^ 63).
  { unfold days. change time.Hour with 3600000000000. lia. }
  assert (Hh : sval (time.Hours (days k)) = 24 * k * 2 ^ 1000).
  { rewrite Hours_nonneg_eq by lia.
    replace (days k / time.Hour) with (24 * k)
      by (unfold days; rewrite Z.div_mul by discriminate; lia).
    replace (days k mod time.Hour) with 0
      by (unfold days; rewrite Z.mod_mul by discriminate; reflexivity).
    change (frac 0) with (S754_zero false).
    destruct (of_int_nonneg (24 * k) ltac:(lia)) as [[E|N] V].
    - rewrite E in *. exact V.
    - destruct (F64.of_int (24 * k)) as [| | |s m e]; try contradiction.
      exact V. }
  pose proof (day_count_rounds0 (days k) Hd) as R. rewrite Hh in R.
  destruct (of_int_nonneg k ltac:(lia)) as [Nk Vk].
  assert (Rk : rounds0 54 (k * 2 ^ 1000) 1 (F64.of_int k)).
  { destruct Nk as [E|N].
    - left. rewrite E in Vk. simpl in Vk. split; [lia | exact E].
    - right. split; [pose proof (sval_pos 53 _ ltac:(lia) N); lia|].
      rewrite <- Vk. apply (rounds_exact 53), N. }
  assert (H24 : 0 < 24 * 2 ^ 1000) by lia.
  assert (Hx : 24 * k * 2 ^ 1000 * 2 ^ 1000 * 1 = k * 2 ^ 1000 * (24 * 2 ^ 1000))
    by ring.
  pose proof (rounds0_mono 224 _ (24 * 2 ^ 1000) _ 54 _ 1 _ ltac:(lia) ltac:(lia)
                H24 ltac:(lia) R Rk ltac:(rewrite Hx; lia)) as L1.
  pose proof (rounds0_mono 54 _ 1 _ 224 _ (24 * 2 ^ 1000) _ ltac:(lia) ltac:(lia)
                ltac:(lia) H24 Rk R ltac:(rewrite Hx; lia)) as L2.
  assert (N1 : nonneg 1000 (day_count (days k)))
    by (eapply nonneg_weaken; [|apply day_count_is_nonneg]; lia).
  assert (N2 : nonneg 1000 (F64.of_int k))
    by (eapply nonneg_weaken; [|exact Nk]; lia).
  apply fle0_sval in L1; [|assumption..].
  apply fle0_sval in L2; [|assumption..].
  lia.
Qed.


(** *** [time.Sub] clamps *)

Lemma Sub_in_int64 (t u : time.Time) : in_int64 (time.Sub t u).
Proof.
  unfold in_int64, time.Sub, time.minDuration, time.maxDuration.
  destruct (Z.ltb_spec (t - u) (- 2 ^ 63)); [lia|].
  destruct (Z.ltb_spec (2 ^ 63 - 1) (t - u)); lia.
Qed.

Lemma Sub_above (t u : time.Time) (d : time.Duration) :
  in_int64 d -> d < time.Sub t u -> d < t - u.
Proof.
  unfold in_int64, time.Sub, time.minDuration, time.maxDuration.
  destruct (Z.ltb_spec (t - u) (- 2 ^ 63)); [lia|].
  destruct (Z.ltb_spec (2 ^ 63 - 1) (t - u)); lia.
Qed.

Lemma Sub_above_iff (t u : time.Time) (d : time.Duration) :
  in_int64 d -> d < time.maxDuration -> (d < time.Sub t u <-> d < t - u).
Proof.
  unfold in_int64, time.Sub, time.minDuration, time.maxDuration.
  destruct (Z.ltb_spec (t - u) (- 2 ^ 63)); [lia|].
  destruct (Z.ltb_spec (2 ^ 63 - 1) (t - u)); lia.
Qed.

End Staleness.

(** ** The API client and the orchestrator *)

Section Run.

Context {World : Type}.
Variable execute : World -> Request -> World * (Response + error).
Variable time_Now : World -> World * time.Time.
Variable time_Parse : string -> option time.Time.
Variable b : BitbucketClient.

Ltac case_execute w r :=
  match goal with
  | |- context [execute ?w0 ?req] =>
      let E := fresh "Hexec" in
      destruct (execute w0 req) as [w r] eqn:E; simpl
  end.

Lemma only_GET_since_refl (env : Env World) : only_GET_since env env.
Proof. exists []. rewrite app_nil_r. auto. Qed.

Lemma only_GET_since_trans (env0 env1 env2 : Env World) :
  only_GET_since env0 env1 -> only_GET_since env1 env2 ->
  only_GET_since env0 env2.
Proof.
  intros (l1 & E1 & F1) (l2 & E2 & F2). exists (l1 ++ l2).
  rewrite E2, E1, app_assoc. split; [reflexivity|].
  apply Forall_app; auto.
Qed.

Lemma only_GET_since_same_sent (env0 env : Env World) :
  sent env = sent env0 -> only_GET_since env0 env.
Proof. intros E. exists []. rewrite app_nil_r. auto. Qed.

Lemma CheckIfStale_sent branch threshold env :
  sent (snd (CheckIfStale time_Now time_Parse branch threshold env)) = sent env.
Proof.
  unfold CheckIfStale, time_Since, assert_map, assert_string, bind, ret, panic.
  destruct (index branch "target") as [[| | | |target]|]; simpl; try reflexivity.
  destruct (index target "date") as [[| |str| |]|]; simpl; try reflexivity.
  destruct (time_Parse str); simpl; [|reflexivity].
  destruct (time_Now (world env)); reflexivity.
Qed.

Lemma per_branch_sent threshold delete repoSlug branch env :
  sent (snd (per_branch time_Now time_Parse threshold delete repoSlug branch env))
  = sent env.
Proof.
  unfold per_branch, bind.
  pose proof (CheckIfStale_sent branch threshold env) as H.
  destruct (CheckIfStale time_Now time_Parse branch threshold env)
    as [[[isStale age]|] env1]; simpl in *; [|exact H].
  destruct isStale; simpl; [|exact H].
  destruct delete; simpl; exact H.
Qed.

Lemma range_only_GET {A} (body : A -> M World unit) (l : list A) :
  (forall x env, only_GET_since env (snd (body x env))) ->
  forall env, only_GET_since env (snd (range l body env)).
Proof.
  intros Hbody. induction l as [|x rest IH]; intros env; simpl.
  - apply only_GET_since_refl.
  - unfold bind. specialize (Hbody x env).
    destruct (body x env) as [[[]|] env1]; simpl in *; [|exact Hbody].
    eapply only_GET_since_trans; [exact Hbody | apply IH].
Qed.

Lemma per_repo_only_GET threshold delete repo env :
  only_GET_since env
    (snd (per_repo execute time_Now time_Parse b threshold delete repo env)).
Proof.
  unfold per_repo, FetchBranches, resty, fmt_Printf, assert_string, bind, ret, panic.
  destruct (index repo "slug") as [[| |slug| |]|]; simpl;
    try apply only_GET_since_refl.
  case_execute w r.
  set (env1 := {| world := w; sent := _; stdout := _ |}).
  assert (H1 : only_GET_since env env1).
  { exists [branches_request b slug]. split; [reflexivity|].
    constructor; [reflexivity | constructor]. }
  destruct r as [resp|err]; simpl.
  - destruct (StatusCode resp =? 200); simpl.
    + eapply only_GET_since_trans; [exact H1|].
      apply range_only_GET. intros x e.
      apply only_GET_since_same_sent, per_branch_sent.
    + exact H1.
  - exact H1.
Qed.

(** Whatever the flag, [ListStaleBranches] sends GET requests only. *)
Lemma ListStaleBranches_only_GET threshold delete env :
  only_GET_since env
    (snd (ListStaleBranches execute time_Now time_Parse b threshold delete env)).
Proof.
  unfold ListStaleBranches, FetchRepositories, resty, fmt_Printf, bind, ret.
  case_execute w r.
  set (env1 := {| world := w; sent := _; stdout := _ |}).
  assert (H1 : only_GET_since env env1).
  { exists [(repositories_request b)]. split; [reflexivity|].
    constructor; [reflexivity | constructor]. }
  destruct r as [resp|err]; simpl.
  - destruct (StatusCode resp =? 200); simpl.
    + eapply only_GET_since_trans; [exact H1|].
      apply range_only_GET. intros x e. apply per_repo_only_GET.
    + exact H1.
  - exact H1.
Qed.

(** C1: on a protected name [DeleteBranch] returns before building any
    request: it prints the notice and leaves the service and the list of
    requests sent as they were.  And whatever the delete flag, the
    orchestrator sends nothing but GET requests. *)
Theorem DeleteBranch_protected_sends_nothing
    (repoSlug branchName : string) (env : Env World) :
  In branchName protectedBranches ->
  DeleteBranch execute b repoSlug branchName env
  = (Returns None,
     printed env [Printf "Branch %s is protected and cannot be deleted.\n"
                         [AString branchName]])
  /\ (forall threshold delete env0,
        only_GET_since env0
          (snd (ListStaleBranches execute time_Now time_Parse b
                  threshold delete env0))).
Proof.
  intros Hin. split.
  - apply isProtected_In in Hin. unfold DeleteBranch. rewrite Hin. reflexivity.
  - intros. apply ListStaleBranches_only_GET.
Qed.

(** C10: on a protected name [DeleteBranch] returns the nil error and
    sends nothing; a deletion that the service confirms with 204 returns
    the same nil, and only the line printed tells the two apart. *)
Theorem DeleteBranch_protected_returns_nil
    (repoSlug branchName : string) (env : Env World) :
  In branchName protectedBranches ->
  let skipped := DeleteBranch execute b repoSlug branchName env in
  fst skipped = Returns None
  /\ sent (snd skipped) = sent env
  /\ world (snd skipped) = world env
  /\ stdout (snd skipped)
     = stdout env ++ [Printf "Branch %s is protected and cannot be deleted.\n"
                             [AString branchName]]
  /\ (forall repoSlug' branchName' env' w resp,
        ~ In branchName' protectedBranches ->
        execute (world env') (delete_request b repoSlug' branchName') = (w, inl resp) ->
        StatusCode resp = 204 ->
        let deleted := DeleteBranch execute b repoSlug' branchName' env' in
        fst deleted = fst skipped
        /\ stdout (snd deleted)
           = stdout env' ++ [Printf "Branch %s deleted in repository %s\n"
                                    [AString branchName'; AString repoSlug']]).
Proof.
  intros Hin. apply isProtected_In in Hin.
  unfold DeleteBranch at 1. rewrite Hin. simpl.
  repeat apply conj; try reflexivity.
  intros repoSlug' branchName' env' w resp Hnot Hexec H204. simpl.
  pose proof (isProtected_not_In _ Hnot) as Hp.
  unfold DeleteBranch. rewrite Hp.
  unfold resty, fmt_Printf, bind, ret. fold (delete_request b repoSlug' branchName').
  rewrite Hexec. simpl. rewrite H204. simpl. split; reflexivity.
Qed.

(** C9: for a name that is not protected, [DeleteBranch] sends one DELETE
    and returns nil exactly when the answer has status 204; a transport
    failure is returned as it is, and any other status as an error that
    names the branch and the status. *)
Theorem DeleteBranch_nil_iff_204
    (repoSlug branchName : string) (env : Env World) (w : World)
    (r : Response + error) :
  ~ In branchName protectedBranches ->
  execute (world env) (delete_request b repoSlug branchName) = (w, r) ->
  let res := DeleteBranch execute b repoSlug branchName env in
  sent (snd res) = sent env ++ [delete_request b repoSlug branchName]
  /\ (fst res = Returns None <-> exists resp, r = inl resp /\ StatusCode resp = 204)
  /\ match r with
     | inr err => fst res = Returns (Some err)
     | inl resp =>
         StatusCode resp <> 204 ->
         fst res = Returns (Some (Errorf "failed to delete branch %s: %s"
                                         [branchName; Status resp]))
     end.
Proof.
  intros Hnot Hexec.
  pose proof (isProtected_not_In _ Hnot) as Hp.
  unfold DeleteBranch. rewrite Hp.
  unfold resty, fmt_Printf, bind, ret. fold (delete_request b repoSlug branchName).
  rewrite Hexec. simpl.
  destruct r as [resp|err]; simpl.
  - destruct (Z.eqb_spec (StatusCode resp) 204) as [E|E]; simpl.
    + repeat split; eauto. intros; contradiction.
    + repeat split; try discriminate.
      intros (resp' & Hr & H204). inversion Hr; subst. contradiction.
  - repeat split; try discriminate.
    intros (resp' & Hr & _). discriminate.
Qed.

(** C8: when the repository list cannot be fetched (transport error or a
    status other than 200), [ListStaleBranches] prints the error and
    returns: that one GET is the only request sent and the error line the
    only line printed. *)
Theorem ListStaleBranches_stops_when_repositories_fail
    (threshold : time.Duration) (delete : bool) (env : Env World)
    (w : World) (r : Response + error) :
  execute (world env) (repositories_request b) = (w, r) ->
  fetch_failed r ->
  exists e,
    ListStaleBranches execute time_Now time_Parse b threshold delete env
    = (Returns tt,
       {| world := w;
          sent := sent env ++ [(repositories_request b)];
          stdout := stdout env ++
                    [Printf "Error fetching repositories: %v\n" [AError e]] |}).
Proof.
  intros Hexec Hfail.
  unfold ListStaleBranches, FetchRepositories, resty, fmt_Printf, bind, ret.
  fold (repositories_request b). rewrite Hexec.
  destruct r as [resp|err]; simpl in *.
  - destruct (Z.eqb_spec (StatusCode resp) 200) as [E|E]; [contradiction|].
    simpl. eexists. reflexivity.
  - eexists. reflexivity.
Qed.

Lemma range_app {A} (body : A -> M World unit) (l1 l2 : list A) (env : Env World) :
  range (l1 ++ l2) body env
  = match range l1 body env with
    | (Returns _, env1) => range l2 body env1
    | (Panics, env1) => (Panics, env1)
    end.
Proof.
  revert env. induction l1 as [|x l1 IH]; intros env; simpl.
  - reflexivity.
  - unfold bind. destruct (body x env) as [[[]|] env1]; [apply IH | reflexivity].
Qed.

(** The loop over repositories, at a repository whose branches cannot be
    fetched: the error is printed and the loop goes on with the rest. *)
Lemma range_per_repo_continues_after_fetch_failure
    (threshold : time.Duration) (delete : bool) (repo : object)
    (rest : list object) (slug : string) (env : Env World)
    (w : World) (r : Response + error) :
  index repo "slug" = Some (VString slug) ->
  execute (world env) (branches_request b slug) = (w, r) ->
  fetch_failed r ->
  exists e,
    range (repo :: rest)
          (per_repo execute time_Now time_Parse b threshold delete) env
    = range rest (per_repo execute time_Now time_Parse b threshold delete)
        {| world := w;
           sent := sent env ++ [branches_request b slug];
           stdout := stdout env ++
             [Printf "Checking branches for repository: %s\n" [AString slug];
              Printf "Error fetching branches for repo %s: %v\n"
                     [AString slug; AError e]] |}.
Proof.
  intros Hslug Hexec Hfail. simpl range.
  unfold bind at 1.
  unfold per_repo, FetchBranches, resty, fmt_Printf, assert_string, bind at 1 2 3 4, ret.
  rewrite Hslug. simpl. fold (branches_request b slug). rewrite Hexec.
  destruct r as [resp|err]; simpl in *.
  - destruct (Z.eqb_spec (StatusCode resp) 200) as [E|E]; [contradiction|].
    simpl. eexists. rewrite <- app_assoc. reflexivity.
  - eexists. rewrite <- app_assoc. reflexivity.
Qed.

(** C7: when the repositories are listed and, somewhere in the list, the
    branches of one repository cannot be fetched (transport error or a
    status other than 200), [ListStaleBranches] prints the error for that
    repository and goes on with all the repositories after it, from the
    state the failed call left. *)
Theorem ListStaleBranches_continues_after_branch_fetch_failure
    (threshold : time.Duration) (delete : bool) (env env1 : Env World)
    (w0 w : World) (resp : Response) (before rest : list object)
    (repo : object) (slug : string) (r : Response + error) :
  execute (world env) (repositories_request b) = (w0, inl resp) ->
  StatusCode resp = 200 ->
  Result resp = before ++ repo :: rest ->
  range before (per_repo execute time_Now time_Parse b threshold delete)
    {| world := w0; sent := sent env ++ [repositories_request b];
       stdout := stdout env |}
  = (Returns tt, env1) ->
  index repo "slug" = Some (VString slug) ->
  execute (world env1) (branches_request b slug) = (w, r) ->
  fetch_failed r ->
  exists e,
    ListStaleBranches execute time_Now time_Parse b threshold delete env
    = range rest (per_repo execute time_Now time_Parse b threshold delete)
        {| world := w;
           sent := sent env1 ++ [branches_request b slug];
           stdout := stdout env1 ++
             [Printf "Checking branches for repository: %s\n" [AString slug];
              Printf "Error fetching branches for repo %s: %v\n"
                     [AString slug; AError e]] |}.
Proof.
  intros Hrepos H200 Hres Hbefore Hslug Hexec Hfail.
  destruct (range_per_repo_continues_after_fetch_failure threshold delete repo
              rest slug env1 w r Hslug Hexec Hfail) as [e He].
  exists e. rewrite <- He.
  unfold ListStaleBranches, FetchRepositories, resty, bind at 1 2, ret.
  fold (repositories_request b). rewrite Hrepos, H200.
  change (negb (200 =? 200)) with false. cbv beta iota.
  rewrite Hres, range_app, Hbefore. reflexivity.
Qed.

(** C5: a commit date that fails to parse makes [CheckIfStale] return
    (false, 0) without touching anything: nothing is printed for the
    branch, and the loop over branches runs as if the branch were not in
    the list. *)
Theorem CheckIfStale_malformed_timestamp
    (branch target : object) (commitDateStr : string)
    (threshold : time.Duration) :
  index branch "target" = Some (VObject target) ->
  index target "date" = Some (VString commitDateStr) ->
  time_Parse commitDateStr = None ->
  (forall env,
      CheckIfStale time_Now time_Parse branch threshold env
      = (Returns (false, 0), env))
  /\ (forall delete repoSlug before rest env,
        range (before ++ branch :: rest)
              (per_branch time_Now time_Parse threshold delete repoSlug) env
        = range (before ++ rest)
                (per_branch time_Now time_Parse threshold delete repoSlug) env).
Proof.
  intros Ht Hd Hp.
  assert (H : forall env, CheckIfStale time_Now time_Parse branch threshold env
                          = (Returns (false, 0), env)).
  { intros env. unfold CheckIfStale, assert_map, assert_string, bind, ret.
    rewrite Ht. simpl. rewrite Hd. simpl. rewrite Hp. reflexivity. }
  split; [exact H|].
  intros delete repoSlug before rest env. rewrite !range_app.
  destruct (range before _ env) as [[[]|] env1]; [|reflexivity].
  simpl range. unfold bind at 1.
  unfold per_branch, bind at 1. rewrite H. reflexivity.
Qed.

Lemma CheckIfStale_parsed
    (branch target : object) (commitDateStr : string) (commitDate now : time.Time)
    (threshold : time.Duration) (env : Env World) (w : World) :
  index branch "target" = Some (VObject target) ->
  index target "date" = Some (VString commitDateStr) ->
  time_Parse commitDateStr = Some commitDate ->
  time_Now (world env) = (w, now) ->
  CheckIfStale time_Now time_Parse branch threshold env
  = (Returns (staleness (time.Sub now commitDate) threshold),
     {| world := w; sent := sent env; stdout := stdout env |}).
Proof.
  intros Ht Hd Hp Hn.
  unfold CheckIfStale, time_Since, assert_map, assert_string, bind, ret.
  rewrite Ht. simpl. rewrite Hd. simpl. rewrite Hp. simpl. rewrite Hn.
  reflexivity.
Qed.

(** C2, as the code has it: a branch is classified stale only if
    [now - T] is strictly greater than the threshold, so an age equal to
    the threshold is not stale; with the 90 days of [main] the branch is
    stale exactly when [now - T] is greater.  (For other thresholds the
    comparison of the two float64 day counts can miss an excess of a few
    nanoseconds.) *)
Theorem CheckIfStale_stale_only_if_older
    (branch target : object) (commitDateStr : string) (commitDate now : time.Time)
    (threshold : time.Duration) (env : Env World) (w : World) :
  index branch "target" = Some (VObject target) ->
  index target "date" = Some (VString commitDateStr) ->
  time_Parse commitDateStr = Some commitDate ->
  time_Now (world env) = (w, now) ->
  in_int64 threshold ->
  exists isStale age,
    CheckIfStale time_Now time_Parse branch threshold env
    = (Returns (isStale, age),
       {| world := w; sent := sent env; stdout := stdout env |})
    /\ (isStale = true -> threshold < now - commitDate)
    /\ (now - commitDate = threshold -> isStale = false)
    /\ (threshold = main_threshold ->
        (isStale = true <-> threshold < now - commitDate)).
Proof.
  intros Ht Hd Hp Hn Hthr.
  rewrite (CheckIfStale_parsed _ _ _ _ _ _ _ _ Ht Hd Hp Hn).
  pose proof (Staleness.Sub_in_int64 now commitDate) as Hs.
  set (since := time.Sub now commitDate) in *.
  assert (Honly : fst (staleness since threshold) = true ->
                  threshold < now - commitDate).
  { intros St. apply Staleness.Sub_above; [exact Hthr|].
    apply Staleness.stale_only_if_older; assumption. }
  exists (fst (staleness since threshold)), (snd (staleness since threshold)).
  split; [destruct (staleness since threshold); reflexivity|].
  split; [exact Honly|]. split.
  - intros E. destruct (fst (staleness since threshold)); [|reflexivity].
    specialize (Honly eq_refl). lia.
  - intros ->. rewrite Staleness.stale_iff_older_main_threshold by exact Hs.
    apply Staleness.Sub_above_iff; [exact Hthr|]. reflexivity.
Qed.

(** C4, as the code has it: the age returned is 0 when the branch is not
    stale; when it is stale the age is a whole number of hours, and the
    line printed shows the hours of that age divided by 24. *)
Theorem CheckIfStale_age
    (branch target : object) (commitDateStr : string) (commitDate now : time.Time)
    (threshold : time.Duration) (env : Env World) (w : World) :
  index branch "target" = Some (VObject target) ->
  index target "date" = Some (VString commitDateStr) ->
  time_Parse commitDateStr = Some commitDate ->
  time_Now (world env) = (w, now) ->
  exists isStale age,
    CheckIfStale time_Now time_Parse branch threshold env
    = (Returns (isStale, age),
       {| world := w; sent := sent env; stdout := stdout env |})
    /\ (isStale = false -> age = 0)
    /\ (isStale = true -> exists n, age = n * time.Hour)
    /\ (isStale = true ->
        forall delete repoSlug,
        exists rest,
          stdout (snd (per_branch time_Now time_Parse threshold delete
                         repoSlug branch env))
          = stdout env ++
            Printf "Stale branch found: %s in repo %s, non-interacted for approximate %.0f days\n"
                   [AInterface (index branch "name"); AString repoSlug;
                    AFloat (div24 (time.Hours age))] :: rest).
Proof.
  intros Ht Hd Hp Hn.
  pose proof (CheckIfStale_parsed _ _ _ _ _ threshold _ _ Ht Hd Hp Hn) as Hc.
  pose proof (Staleness.Sub_in_int64 now commitDate) as Hs.
  set (since := time.Sub now commitDate) in *.
  destruct (Staleness.staleness_age since threshold Hs) as [A0 A1].
  destruct (staleness since threshold) as [isStale age] eqn:E.
  simpl in A0, A1.
  exists isStale, age. split; [exact Hc|]. split; [exact A0|].
  split; [exact A1|].
  intros -> delete repoSlug.
  unfold per_branch, bind at 1. rewrite Hc.
  unfold fmt_Printf, bind, ret.
  destruct delete; simpl.
  - exists [Printf "Blaaa" []]. rewrite <- app_assoc. reflexivity.
  - exists []. reflexivity.
Qed.

End Run.

(** ** Instances on the example workspace *)

Lemma DeleteBranch_protected_sends_nothing_witness :
  In "master" protectedBranches
  /\ DeleteBranch (Scenario.execute false) Scenario.client "repo-a" "master"
       Scenario.start
     = (Returns None,
        printed Scenario.start
          [Printf "Branch %s is protected and cannot be deleted.\n"
                  [AString "master"]]).
Proof.
  assert (H : In "master" protectedBranches) by (simpl; tauto).
  split; [exact H|].
  exact (proj1 (DeleteBranch_protected_sends_nothing (Scenario.execute false)
                  Scenario.time_Now Scenario.time_Parse Scenario.client
                  "repo-a" "master" Scenario.start H)).
Defined.

Lemma DeleteBranch_protected_returns_nil_witness :
  In "develop" protectedBranches
  /\ fst (DeleteBranch (Scenario.execute false) Scenario.client "repo-b" "develop"
            Scenario.start) = Returns None.
Proof.
  assert (H : In "develop" protectedBranches) by (simpl; tauto).
  split; [exact H|].
  exact (proj1 (DeleteBranch_protected_returns_nil (Scenario.execute false)
                  Scenario.client "repo-b" "develop" Scenario.start H)).
Defined.

Lemma DeleteBranch_nil_iff_204_witness :
  ~ In "feature-x" protectedBranches
  /\ sent (snd (DeleteBranch (Scenario.execute false) Scenario.client
                  "repo-a" "feature-x" Scenario.start))
     = [delete_request Scenario.client "repo-a" "feature-x"].
Proof.
  assert (H : ~ In "feature-x" protectedBranches).
  { simpl. intros [H|[H|[H|[]]]]; discriminate H. }
  split; [exact H|].
  exact (proj1 (DeleteBranch_nil_iff_204 (Scenario.execute false) Scenario.client
                  "repo-a" "feature-x" Scenario.start tt _ H eq_refl)).
Defined.

Lemma ListStaleBranches_stops_when_repositories_fail_witness :
  exists e,
    ListStaleBranches Scenario.unauthorized Scenario.time_Now Scenario.time_Parse
      Scenario.client main_threshold true Scenario.start
    = (Returns tt,
       {| world := tt;
          sent := [repositories_request Scenario.client];
          stdout := [Printf "Error fetching repositories: %v\n" [AError e]] |}).
Proof.
  apply (ListStaleBranches_stops_when_repositories_fail Scenario.unauthorized
           Scenario.time_Now Scenario.time_Parse Scenario.client main_threshold
           true Scenario.start tt
           (inl {| StatusCode := 401; Status := "401 Unauthorized"; Result := [] |})).
  - reflexivity.
  - simpl. lia.
Defined.

Lemma ListStaleBranches_continues_after_branch_fetch_failure_witness :
  exists e,
    ListStaleBranches (Scenario.execute true) Scenario.time_Now Scenario.time_Parse
      Scenario.client main_threshold false Scenario.start
    = range [Scenario.repo "repo-a"; Scenario.repo "repo-b"]
        (per_repo (Scenario.execute true) Scenario.time_Now Scenario.time_Parse
           Scenario.client main_threshold false)
        {| world := tt;
           sent := [repositories_request Scenario.client;
                    branches_request Scenario.client "repo-c"];
           stdout :=
             [Printf "Checking branches for repository: %s\n" [AString "repo-c"];
              Printf "Error fetching branches for repo %s: %v\n"
                     [AString "repo-c"; AError e]] |}.
Proof.
  apply (ListStaleBranches_continues_after_branch_fetch_failure
           (Scenario.execute true) Scenario.time_Now Scenario.time_Parse
           Scenario.client main_threshold false Scenario.start
           {| world := tt; sent := [repositories_request Scenario.client];
              stdout := [] |}
           tt tt
           {| StatusCode := 200; Status := "200 OK";
              Result := [Scenario.repo "repo-c"; Scenario.repo "repo-a";
                         Scenario.repo "repo-b"] |}
           [] [Scenario.repo "repo-a"; Scenario.repo "repo-b"]
           (Scenario.repo "repo-c") "repo-c"
           (inl {| StatusCode := 404; Status := "404 Not Found"; Result := [] |})).
  - reflexivity.
  - reflexivity.
  - reflexivity.
  - reflexivity.
  - reflexivity.
  - reflexivity.
  - simpl. lia.
Defined.

Lemma CheckIfStale_malformed_timestamp_witness :
  CheckIfStale Scenario.time_Now Scenario.time_Parse
    (Scenario.branch "wip" "yesterday") main_threshold Scenario.start
  = (Returns (false, 0), Scenario.start).
Proof.
  exact (proj1 (CheckIfStale_malformed_timestamp Scenario.time_Now
                  Scenario.time_Parse (Scenario.branch "wip" "yesterday")
                  {[ "date" := Some (VString "yesterday") ]} "yesterday"
                  main_threshold eq_refl eq_refl eq_refl) Scenario.start).
Defined.

(** C3: with the delete flag set, on the example workspace, the two stale
    branches are reported and line 144 prints its placeholder for each; the
    three requests sent are the three GETs, and no DELETE. *)
Theorem ListStaleBranches_delete_flag_deletes_nothing :
  let run := ListStaleBranches (Scenario.execute false) Scenario.time_Now
               Scenario.time_Parse Scenario.client main_threshold true
               Scenario.start in
  fst run = Returns tt
  /\ sent (snd run)
     = [repositories_request Scenario.client;
        branches_request Scenario.client "repo-a";
        branches_request Scenario.client "repo-b"]
  /\ map format (stdout (snd run))
     = ["Checking branches for repository: %s\n";
        "Stale branch found: %s in repo %s, non-interacted for approximate %.0f days\n";
        "Blaaa";
        "Checking branches for repository: %s\n";
        "Stale branch found: %s in repo %s, non-interacted for approximate %.0f days\n";
        "Blaaa"]
  /\ ~ In (delete_request Scenario.client "repo-a" "feature-x") (sent (snd run)).
Proof.
  vm_compute. repeat split; try reflexivity.
  intros [H|[H|[H|[]]]]; discriminate H.
Qed.

Lemma CheckIfStale_stale_only_if_older_witness :
  in_int64 main_threshold
  /\ exists isStale age,
       CheckIfStale Scenario.time_Now Scenario.time_Parse
         (Scenario.branch "feature-x" "2023-04-28T22:13:20Z") main_threshold
         Scenario.start
       = (Returns (isStale, age), Scenario.start)
       /\ (isStale = true <->
           main_threshold < Scenario.now - 1682720000 * time.Second).
Proof.
  assert (H : in_int64 main_threshold) by (vm_compute; split; discriminate).
  split; [exact H|].
  destruct (CheckIfStale_stale_only_if_older Scenario.time_Now Scenario.time_Parse
              (Scenario.branch "feature-x" "2023-04-28T22:13:20Z")
              {[ "date" := Some (VString "2023-04-28T22:13:20Z") ]}
              "2023-04-28T22:13:20Z" (1682720000 * time.Second) Scenario.now
              main_threshold Scenario.start tt eq_refl eq_refl eq_refl eq_refl H)
    as (isStale & age & E & _ & _ & Hiff).
  exists isStale, age. split; [exact E | exact (Hiff eq_refl)].
Defined.

Lemma CheckIfStale_age_witness :
  exists isStale age,
    CheckIfStale Scenario.time_Now Scenario.time_Parse
      (Scenario.branch "old-stuff" "2023-08-15T22:13:20Z") main_threshold
      Scenario.start
    = (Returns (isStale, age), Scenario.start)
    /\ (isStale = false -> age = 0)
    /\ (isStale = true -> exists n, age = n * time.Hour).
Proof.
  destruct (CheckIfStale_age Scenario.time_Now Scenario.time_Parse
              (Scenario.branch "old-stuff" "2023-08-15T22:13:20Z")
              {[ "date" := Some (VString "2023-08-15T22:13:20Z") ]}
              "2023-08-15T22:13:20Z" (1692137600 * time.Second) Scenario.now
              main_threshold Scenario.start tt eq_refl eq_refl eq_refl eq_refl)
    as (isStale & age & E & A0 & A1 & _).
  exists isStale, age. split; [exact E|]. split; [exact A0 | exact A1].
Defined.

(** ** Where the specification and the code part *)

(** C2 as stated fails: with a threshold of 365 days, a branch whose last
    commit is 365 days and one nanosecond old is older than the threshold
    and is classified as not stale: both day counts round to the same
    float64. *)
Lemma CheckIfStale_misses_one_nanosecond :
  let T := 1668463999 * time.Second + 999999999 in
  Scenario.time_Parse "2022-11-14T22:13:19.999999999Z" = Some T
  /\ days 365 < Scenario.now - T
  /\ CheckIfStale Scenario.time_Now Scenario.time_Parse
       (Scenario.branch "late" "2022-11-14T22:13:19.999999999Z") (days 365)
       Scenario.start
     = (Returns (false, 0), Scenario.start).
Proof. vm_compute. repeat split. Qed.

(** C4 as stated fails: [master], one day old, is not stale and comes back
    with age 0; [feature-x], 200 days old, is stale and comes back with an
    age that is not [now - T] either. *)
Lemma age_returned_is_not_elapsed_time :
  (CheckIfStale Scenario.time_Now Scenario.time_Parse
     (Scenario.branch "master" "2023-11-13T22:13:20Z") main_threshold Scenario.start
   = (Returns (false, 0), Scenario.start)
   /\ Scenario.now - 1699913600 * time.Second = days 1
   /\ days 1 <> 0)
  /\ exists age,
       CheckIfStale Scenario.time_Now Scenario.time_Parse
         (Scenario.branch "feature-x" "2023-04-28T22:13:20Z") main_threshold
         Scenario.start
       = (Returns (true, age), Scenario.start)
       /\ Scenario.now - 1682720000 * time.Second = days 200
       /\ age <> days 200.
Proof.
  split.
  - vm_compute. repeat split. discriminate.
  - exists (200 * time.Hour). vm_compute. repeat split. discriminate.
Qed.

(** Line 81 turns the whole-day count into a duration by multiplying it by
    [time.Hour]: 200 days come back as 200 hours, and the line printed
    shows 200/24.  The float printed for [feature-x] lies between 8 and 9. *)
Example staleness_200_days :
  staleness (days 200) main_threshold = (true, 200 * time.Hour)
  /\ F64.trunc (div24 (time.Hours (200 * time.Hour))) = Some 8.
Proof. vm_compute. split; reflexivity. Qed.

Example staleness_at_threshold :
  staleness main_threshold main_threshold = (false, 0)
  /\ fst (staleness (main_threshold + 1) main_threshold) = true.
Proof. vm_compute. split; reflexivity. Qed.


(** * Further properties of the code *)

(** ** The three API calls and the type assertions *)

Section Client.

Context {World : Type}.
Variable execute : World -> Request -> World * (Response + error).
Variable time_Now : World -> World * time.Time.
Variable time_Parse : string -> option time.Time.
Variable b : BitbucketClient.

(** [FetchRepositories] sends one GET for the repository collection with
    the token, prints nothing and never panics; it returns the decoded list
    with a nil error exactly on status 200, and otherwise an error with an
    empty list, whatever the response carried. *)
Theorem FetchRepositories_outcome
    (env : Env World) (w : World) (r : Response + error) :
  execute (world env) (repositories_request b) = (w, r) ->
  exists repos err,
    FetchRepositories execute b env
    = (Returns (repos, err),
       {| world := w; sent := sent env ++ [repositories_request b];
          stdout := stdout env |})
    /\ (err = None <-> exists resp, r = inl resp /\ StatusCode resp = 200)
    /\ (err = None -> forall resp, r = inl resp -> repos = Result resp)
    /\ (err <> None -> repos = []).
Proof.
  intros Hexec.
  unfold FetchRepositories, resty, bind, ret.
  fold (repositories_request b). rewrite Hexec.
  destruct r as [resp|e]; simpl.
  - destruct (Z.eqb_spec (StatusCode resp) 200) as [E|E]; simpl.
    + exists (Result resp), None. split; [reflexivity|].
      split; [split; eauto|]. split.
      * intros _ resp' H. inversion H. reflexivity.
      * intros H. contradiction.
    + eexists [], (Some _). split; [reflexivity|].
      split; [|split; [discriminate | reflexivity]].
      split; [discriminate|].
      intros (resp' & H & H200). inversion H; subst. contradiction.
  - exists [], (Some e). split; [reflexivity|].
    split; [|split; [discriminate | reflexivity]].
    split; [discriminate|]. intros (resp' & H & _). discriminate.
Qed.

(** [FetchBranches] does the same for the branches of one repository; the
    error for a status other than 200 names the repository and the status. *)
Theorem FetchBranches_outcome
    (repoSlug : string) (env : Env World) (w : World) (r : Response + error) :
  execute (world env) (branches_request b repoSlug) = (w, r) ->
  exists branches err,
    FetchBranches execute b repoSlug env
    = (Returns (branches, err),
       {| world := w; sent := sent env ++ [branches_request b repoSlug];
          stdout := stdout env |})
    /\ (err = None <-> exists resp, r = inl resp /\ StatusCode resp = 200)
    /\ (err = None -> forall resp, r = inl resp -> branches = Result resp)
    /\ (err <> None -> branches = [])
    /\ (forall resp, r = inl resp -> StatusCode resp <> 200 ->
        err = Some (Errorf "failed to fetch branches for repo %s: %s"
                           [repoSlug; Status resp])).
Proof.
  intros Hexec.
  unfold FetchBranches, resty, bind, ret.
  fold (branches_request b repoSlug). rewrite Hexec.
  destruct r as [resp|e]; simpl.
  - destruct (Z.eqb_spec (StatusCode resp) 200) as [E|E]; simpl.
    + exists (Result resp), None. split; [reflexivity|].
      split; [split; eauto|]. split; [|split].
      * intros _ resp' H. inversion H. reflexivity.
      * intros H. contradiction.
      * intros resp' H Hne. inversion H; subst. contradiction.
    + eexists [], (Some _). split; [reflexivity|].
      split; [|split; [discriminate | split; [reflexivity|]]].
      * split; [discriminate|].
        intros (resp' & H & H200). inversion H; subst. contradiction.
      * intros resp' H _. inversion H; subst. reflexivity.
  - exists [], (Some e). split; [reflexivity|].
    split; [|split; [discriminate | split; [reflexivity|]]].
    + split; [discriminate|]. intros (resp' & H & _). discriminate.
    + intros resp' H. discriminate H.
Qed.

Lemma CheckIfStale_no_date
    (branch : object) (threshold : time.Duration) (env : Env World) :
  ~ has_date branch ->
  CheckIfStale time_Now time_Parse branch threshold env = (Panics, env).
Proof.
  intros Hno. unfold CheckIfStale, assert_map, assert_string, bind, ret, panic.
  destruct (index branch "target") as [[| | | |target]|] eqn:Ht; try reflexivity.
  simpl.
  destruct (index target "date") as [[| |str| |]|] eqn:Hd; try reflexivity.
  exfalso. apply Hno. exists target, str. auto.
Qed.

Lemma CheckIfStale_stdout
    (branch : object) (threshold : time.Duration) (env : Env World) :
  stdout (snd (CheckIfStale time_Now time_Parse branch threshold env)) = stdout env.
Proof.
  unfold CheckIfStale, time_Since, assert_map, assert_string, bind, ret, panic.
  destruct (index branch "target") as [[| | | |target]|]; simpl; auto.
  destruct (index target "date") as [[| |str| |]|]; simpl; auto.
  destruct (time_Parse str); simpl; auto.
  destruct (time_Now (world env)) as [w now]; reflexivity.
Qed.

(** [CheckIfStale] panics exactly on the records the assertions of line 74
    reject (no "target", a "target" that is not an object, no "date" in it,
    a "date" that is not a string), and then before it reads the clock:
    the state is untouched.  A date that does not parse is no panic. *)
Theorem CheckIfStale_panics_iff_no_date
    (branch : object) (threshold : time.Duration) (env : Env World) :
  (fst (CheckIfStale time_Now time_Parse branch threshold env) = Panics
   <-> ~ has_date branch)
  /\ (fst (CheckIfStale time_Now time_Parse branch threshold env) = Panics ->
      snd (CheckIfStale time_Now time_Parse branch threshold env) = env).
Proof.
  assert (Hret : has_date branch ->
            fst (CheckIfStale time_Now time_Parse branch threshold env) <> Panics).
  { intros (target & str & Ht & Hd).
    unfold CheckIfStale, time_Since, assert_map, assert_string, bind, ret.
    rewrite Ht. simpl. rewrite Hd. simpl.
    destruct (time_Parse str); simpl; [|discriminate].
    destruct (time_Now (world env)) as [w now]. discriminate. }
  assert (Hdec : has_date branch \/ ~ has_date branch).
  { unfold has_date.
    destruct (index branch "target") as [[| | | |target]|] eqn:Ht;
      try (right; intros (t & d & H & _); discriminate H).
    destruct (index target "date") as [[| |str| |]|] eqn:Hd;
      try (right; intros (t & d & H1 & H2); inversion H1; subst t;
           rewrite Hd in H2; discriminate H2).
    left. eauto. }
  split; [split|].
  - intros Hp Hd. exact (Hret Hd Hp).
  - intros Hno. rewrite (CheckIfStale_no_date branch threshold env Hno).
    reflexivity.
  - intros Hp. destruct Hdec as [Hd|Hno]; [destruct (Hret Hd Hp)|].
    rewrite (CheckIfStale_no_date branch threshold env Hno). reflexivity.
Qed.

(** [CheckIfStale] sends nothing and prints nothing; it touches the world
    (reads the clock) only when the record has a date that parses. *)
Theorem CheckIfStale_effects
    (branch : object) (threshold : time.Duration) (env : Env World) :
  let res := CheckIfStale time_Now time_Parse branch threshold env in
  sent (snd res) = sent env
  /\ stdout (snd res) = stdout env
  /\ ((forall target commitDateStr,
         index branch "target" = Some (VObject target) ->
         index target "date" = Some (VString commitDateStr) ->
         time_Parse commitDateStr = None) ->
      snd res = env).
Proof.
  unfold CheckIfStale, time_Since, assert_map, assert_string, bind, ret, panic.
  destruct (index branch "target") as [[| | | |target]|] eqn:Ht; simpl; auto.
  destruct (index target "date") as [[| |str| |]|] eqn:Hd; simpl; auto.
  destruct (time_Parse str) eqn:Hp; simpl; auto.
  destruct (time_Now (world env)) as [w now]; simpl.
  repeat split. intros H. specialize (H target str eq_refl Hd). congruence.
Qed.

(** The loop body for a repository panics on a record without a string
    "slug" (line 127), before anything is printed or sent. *)
Theorem per_repo_panics_without_slug
    (threshold : time.Duration) (delete : bool) (repo : object) (env : Env World) :
  ~ has_slug repo ->
  per_repo execute time_Now time_Parse b threshold delete repo env = (Panics, env).
Proof.
  intros Hno. unfold per_repo, assert_string, bind, panic.
  destruct (index repo "slug") as [[| |slug| |]|] eqn:Hs; try reflexivity.
  exfalso. apply Hno. exists slug. exact Hs.
Qed.

Lemma range_stops_at_panic {A} (body : A -> M World unit)
    (before rest : list A) (x : A) (env env1 env2 : Env World) :
  range before body env = (Returns tt, env1) ->
  body x env1 = (Panics, env2) ->
  range (before ++ x :: rest) body env = (Panics, env2).
Proof.
  revert env. induction before as [|y before IH]; intros env Hb Hx; simpl in *.
  - unfold ret in Hb. inversion Hb; subst. unfold bind. rewrite Hx. reflexivity.
  - unfold bind in *. destruct (body y env) as [[[]|] e]; [|discriminate].
    apply IH; assumption.
Qed.

(** A panic in the loop body for one repository ends the whole run there:
    unlike a failed fetch, the repositories that follow are not processed. *)
Theorem ListStaleBranches_stops_at_panic
    (threshold : time.Duration) (delete : bool) (env env1 env2 : Env World)
    (w0 : World) (resp : Response) (before rest : list object) (repo : object) :
  execute (world env) (repositories_request b) = (w0, inl resp) ->
  StatusCode resp = 200 ->
  Result resp = before ++ repo :: rest ->
  range before (per_repo execute time_Now time_Parse b threshold delete)
    {| world := w0; sent := sent env ++ [repositories_request b];
       stdout := stdout env |}
  = (Returns tt, env1) ->
  per_repo execute time_Now time_Parse b threshold delete repo env1
  = (Panics, env2) ->
  ListStaleBranches execute time_Now time_Parse b threshold delete env
  = (Panics, env2).
Proof.
  intros Hrepos H200 Hres Hbefore Hpanic.
  unfold ListStaleBranches, FetchRepositories, resty, bind at 1 2, ret.
  fold (repositories_request b). rewrite Hrepos, H200.
  change (negb (200 =? 200)) with false. cbv beta iota.
  rewrite Hres. eapply range_stops_at_panic; eassumption.
Qed.

(** A branch record without a date makes the loop body of its repository
    panic, after the branches before it have been processed: the branches
    after it are not. *)
Theorem per_repo_stops_at_branch_without_date
    (threshold : time.Duration) (delete : bool) (repo branch : object)
    (slug : string) (env env1 : Env World) (w : World) (resp : Response)
    (before rest : list object) :
  index repo "slug" = Some (VString slug) ->
  execute (world env) (branches_request b slug) = (w, inl resp) ->
  StatusCode resp = 200 ->
  Result resp = before ++ branch :: rest ->
  range before (per_branch time_Now time_Parse threshold delete slug)
    {| world := w; sent := sent env ++ [branches_request b slug];
       stdout := stdout env ++
         [Printf "Checking branches for repository: %s\n" [AString slug]] |}
  = (Returns tt, env1) ->
  ~ has_date branch ->
  per_repo execute time_Now time_Parse b threshold delete repo env
  = (Panics, env1).
Proof.
  intros Hslug Hexec H200 Hres Hbefore Hno.
  unfold per_repo, FetchBranches, resty, fmt_Printf, assert_string,
    bind at 1 2 3 4, ret.
  rewrite Hslug. simpl. fold (branches_request b slug). rewrite Hexec, H200.
  change (negb (200 =? 200)) with false. cbv beta iota.
  rewrite Hres. eapply range_stops_at_panic; [exact Hbefore|].
  unfold per_branch, bind.
  rewrite (CheckIfStale_no_date branch threshold env1 Hno).
  reflexivity.
Qed.

(** [DeleteBranch] prints its "deleted" line exactly when the name is not
    protected and the service answers 204; when it returns an error it has
    printed nothing. *)
Theorem DeleteBranch_reports_only_success
    (repoSlug branchName : string) (env : Env World) (w : World)
    (r : Response + error) :
  execute (world env) (delete_request b repoSlug branchName) = (w, r) ->
  let res := DeleteBranch execute b repoSlug branchName env in
  let line := Printf "Branch %s deleted in repository %s\n"
                     [AString branchName; AString repoSlug] in
  (stdout (snd res) = stdout env ++ [line] <->
   ~ In branchName protectedBranches
   /\ exists resp, r = inl resp /\ StatusCode resp = 204)
  /\ (forall e, fst res = Returns (Some e) -> stdout (snd res) = stdout env).
Proof.
  intros Hexec. unfold DeleteBranch.
  destruct (isProtected branchName) eqn:Hp.
  - simpl. split.
    + split.
      * intros H. apply app_inv_head in H. discriminate H.
      * intros [Hnot _]. apply isProtected_In in Hp. contradiction.
    + intros e H. discriminate H.
  - assert (Hnot : ~ In branchName protectedBranches).
    { intros Hin. apply isProtected_In in Hin. congruence. }
    unfold resty, fmt_Printf, bind, ret.
    fold (delete_request b repoSlug branchName). rewrite Hexec.
    destruct r as [resp|err]; simpl.
    + destruct (Z.eqb_spec (StatusCode resp) 204) as [E|E]; simpl.
      * split; [|intros e H; discriminate H].
        split; [intros _; split; eauto | reflexivity].
      * split; [|reflexivity].
        split.
        -- intros H. rewrite <- (app_nil_r (stdout env)) in H at 1.
           apply app_inv_head in H. discriminate H.
        -- intros (_ & resp' & H & H204). inversion H; subst. contradiction.
    + split; [|reflexivity].
      split.
      * intros H. rewrite <- (app_nil_r (stdout env)) in H at 1.
        apply app_inv_head in H. discriminate H.
      * intros (_ & resp' & H & _). discriminate H.
Qed.

End Client.

(** ** The orchestrator as a whole *)

Section Orchestrator.

Context {World : Type}.
Variable execute : World -> Request -> World * (Response + error).
Variable time_Now : World -> World * time.Time.
Variable time_Parse : string -> option time.Time.
Variable b : BitbucketClient.

Lemma range_sent_same {A} (body : A -> M World unit) (l : list A) :
  (forall x env, sent (snd (body x env)) = sent env) ->
  forall env, sent (snd (range l body env)) = sent env.
Proof.
  intros Hbody. induction l as [|x l IH]; intros env; simpl; [reflexivity|].
  unfold bind. specialize (Hbody x env).
  destruct (body x env) as [[[]|] env1]; simpl in *; [|exact Hbody].
  rewrite IH. exact Hbody.
Qed.

Lemma per_repo_sent (threshold : time.Duration) (delete : bool)
    (repo : object) (env : Env World) :
  sent (snd (per_repo execute time_Now time_Parse b threshold delete repo env))
  = sent env ++ match index repo "slug" with
                | Some (VString slug) => [branches_request b slug]
                | _ => []
                end.
Proof.
  unfold per_repo, FetchBranches, resty, fmt_Printf, assert_string, bind, ret, panic.
  destruct (index repo "slug") as [[| |slug| |]|]; simpl;
    try (rewrite app_nil_r; reflexivity).
  fold (branches_request b slug).
  destruct (execute (world env) (branches_request b slug)) as [w r]. simpl.
  destruct r as [resp|err]; simpl; [|reflexivity].
  destruct (StatusCode resp =? 200); simpl; [|reflexivity].
  rewrite range_sent_same; [reflexivity|].
  intros x e. apply per_branch_sent.
Qed.

(** The loop body for a repository, once the slug is read and the request
    answered. *)
Lemma per_repo_eq (threshold : time.Duration) (delete : bool) (repo : object)
    (slug : string) (env : Env World) (w : World) (r : Response + error) :
  index repo "slug" = Some (VString slug) ->
  execute (world env) (branches_request b slug) = (w, r) ->
  let env1 :=
    {| world := w; sent := sent env ++ [branches_request b slug];
       stdout := stdout env ++
         [Printf "Checking branches for repository: %s\n" [AString slug]] |} in
  per_repo execute time_Now time_Parse b threshold delete repo env
  = match r with
    | inl resp =>
        if StatusCode resp =? 200
        then range (Result resp)
                   (per_branch time_Now time_Parse threshold delete slug) env1
        else (Returns tt,
              printed env1
                [Printf "Error fetching branches for repo %s: %v\n"
                   [AString slug;
                    AError (Errorf "failed to fetch branches for repo %s: %s"
                                   [slug; Status resp])]])
    | inr err =>
        (Returns tt,
         printed env1
           [Printf "Error fetching branches for repo %s: %v\n"
                   [AString slug; AError err]])
    end.
Proof.
  intros Hslug Hexec.
  unfold per_repo, FetchBranches, resty, fmt_Printf, assert_string,
    bind at 1 2 3 4, ret.
  rewrite Hslug. simpl. fold (branches_request b slug). rewrite Hexec.
  destruct r as [resp|err]; simpl; [|reflexivity].
  destruct (StatusCode resp =? 200); reflexivity.
Qed.

Lemma range_per_repo_requests (threshold : time.Duration) (delete : bool)
    (repos : list object) : forall env : Env World,
  let res := range repos (per_repo execute time_Now time_Parse b threshold delete)
                   env in
  exists processed slugs,
    sent (snd res) = sent env ++ map (branches_request b) slugs
    /\ Forall2 (fun repo slug => index repo "slug" = Some (VString slug))
               processed slugs
    /\ processed `prefix_of` repos
    /\ (fst res = Returns tt -> processed = repos).
Proof.
  induction repos as [|repo repos IH]; intros env; simpl.
  - exists [], []. rewrite app_nil_r.
    split; [reflexivity|]. split; [constructor|]. split; [reflexivity|].
    reflexivity.
  - unfold bind.
    pose proof (per_repo_sent threshold delete repo env) as Hs.
    destruct (per_repo execute time_Now time_Parse b threshold delete repo env)
      as [[[]|] env1] eqn:E; simpl in *.
    + destruct (index repo "slug") as [[| |slug| |]|] eqn:Hslug;
        try (exfalso; unfold per_repo, assert_string, bind, panic in E;
             rewrite Hslug in E; simpl in E; discriminate E).
      destruct (IH env1) as (processed & slugs & S1 & F & P & R).
      exists (repo :: processed), (slug :: slugs).
      split; [rewrite S1, Hs, <- app_assoc; reflexivity|].
      split; [constructor; assumption|].
      split; [apply prefix_cons; exact P|].
      intros H. f_equal. apply R. exact H.
    + destruct (index repo "slug") as [[| |slug| |]|] eqn:Hslug;
        try (exists [], []; rewrite Hs;
             split; [reflexivity|]; split; [constructor|];
             split; [apply prefix_nil | discriminate]).
      exists [repo], [slug]. split; [exact Hs|].
      split; [constructor; [exact Hslug | constructor]|].
      split; [apply prefix_cons, prefix_nil | discriminate].
Qed.

Lemma ListStaleBranches_listed
    (threshold : time.Duration) (delete : bool) (env : Env World)
    (w : World) (resp : Response) :
  execute (world env) (repositories_request b) = (w, inl resp) ->
  StatusCode resp = 200 ->
  ListStaleBranches execute time_Now time_Parse b threshold delete env
  = range (Result resp) (per_repo execute time_Now time_Parse b threshold delete)
      {| world := w; sent := sent env ++ [repositories_request b];
         stdout := stdout env |}.
Proof.
  intros Hexec H200.
  unfold ListStaleBranches, FetchRepositories, resty, bind at 1 2, ret.
  fold (repositories_request b). rewrite Hexec, H200. reflexivity.
Qed.

Lemma ListStaleBranches_not_listed
    (threshold : time.Duration) (delete : bool) (env : Env World)
    (w : World) (r : Response + error) :
  execute (world env) (repositories_request b) = (w, r) ->
  fetch_failed r ->
  exists line,
    ListStaleBranches execute time_Now time_Parse b threshold delete env
    = (Returns tt,
       {| world := w; sent := sent env ++ [repositories_request b];
          stdout := stdout env ++ [line] |})
    /\ format line = "Error fetching repositories: %v\n".
Proof.
  intros Hexec Hfail.
  unfold ListStaleBranches, FetchRepositories, resty, fmt_Printf, bind, ret.
  fold (repositories_request b). rewrite Hexec.
  destruct r as [resp|err]; simpl in *.
  - destruct (Z.eqb_spec (StatusCode resp) 200) as [E|E]; [contradiction|].
    simpl. eexists. split; reflexivity.
  - eexists. split; reflexivity.
Qed.

(** The requests of a run: the GET for the repository list and then, in
    the order of the list, one GET for the branches of each repository the
    loop reached; all of them when the run returns. *)
Theorem ListStaleBranches_requests
    (threshold : time.Duration) (delete : bool) (env : Env World)
    (w : World) (r : Response + error) :
  execute (world env) (repositories_request b) = (w, r) ->
  exists processed slugs,
    sent (snd (ListStaleBranches execute time_Now time_Parse b threshold
                 delete env))
    = sent env ++ repositories_request b :: map (branches_request b) slugs
    /\ Forall2 (fun repo slug => index repo "slug" = Some (VString slug))
               processed slugs
    /\ (fetch_failed r -> processed = [])
    /\ (forall resp, r = inl resp -> StatusCode resp = 200 ->
        processed `prefix_of` Result resp
        /\ (fst (ListStaleBranches execute time_Now time_Parse b threshold
                   delete env) = Returns tt ->
            processed = Result resp)).
Proof.
  intros Hexec.
  assert (Hcase : fetch_failed r \/ exists resp, r = inl resp /\ StatusCode resp = 200).
  { destruct r as [resp|err]; simpl; [|auto].
    destruct (Z.eq_dec (StatusCode resp) 200); eauto. }
  destruct Hcase as [Hfail|(resp & -> & H200)].
  - destruct (ListStaleBranches_not_listed threshold delete env w r Hexec Hfail)
      as (line & -> & _).
    exists [], []. split; [reflexivity|]. split; [constructor|].
    split; [reflexivity|]. intros resp -> H200. simpl in Hfail. contradiction.
  - rewrite (ListStaleBranches_listed threshold delete env w resp Hexec H200).
    destruct (range_per_repo_requests threshold delete (Result resp)
                {| world := w; sent := sent env ++ [repositories_request b];
                   stdout := stdout env |})
      as (processed & slugs & S1 & F & P & R).
    exists processed, slugs. simpl in S1.
    split; [rewrite S1, <- app_assoc; reflexivity|].
    split; [exact F|]. split; [intros H; simpl in H; contradiction|].
    intros resp' H _. inversion H; subst resp'. split; [exact P | exact R].
Qed.

(** *** What the delete flag changes *)

Lemma without_placeholder_app (l1 l2 : list printf) :
  without_placeholder (l1 ++ l2) = without_placeholder l1 ++ without_placeholder l2.
Proof. apply List.filter_app. Qed.

Ltac same_env :=
  split; [|split]; cbn [world sent stdout fst snd];
  [ congruence
  | congruence
  | rewrite ?without_placeholder_app; congruence ].

Lemma per_branch_flag (threshold : time.Duration) (repoSlug : string)
    (branch : object) (et ef : Env World) :
  same_but_placeholder et ef ->
  let rt := per_branch time_Now time_Parse threshold true repoSlug branch et in
  let rf := per_branch time_Now time_Parse threshold false repoSlug branch ef in
  fst rt = fst rf /\ same_but_placeholder (snd rt) (snd rf).
Proof.
  intros (Hw & Hs & Ho).
  unfold per_branch, CheckIfStale, time_Since, fmt_Printf, assert_map,
    assert_string, bind, ret, panic.
  destruct (index branch "target") as [[| | | |target]|]; simpl;
    try (split; [reflexivity | split; [|split]; assumption]).
  destruct (index target "date") as [[| |str| |]|]; simpl;
    try (split; [reflexivity | split; [|split]; assumption]).
  destruct (time_Parse str) as [commitDate|]; simpl;
    try (split; [reflexivity | split; [|split]; assumption]).
  rewrite Hw. destruct (time_Now (world ef)) as [w now]. simpl.
  destruct (staleness (time.Sub now commitDate) threshold) as [[] age]; simpl.
  - split; [reflexivity|]. split; [reflexivity|]. split; [exact Hs|].
    cbn [stdout]. rewrite !without_placeholder_app, Ho. simpl.
    rewrite app_nil_r. reflexivity.
  - split; [reflexivity|]. split; [reflexivity|]. split; assumption.
Qed.

Lemma range_flag {A} (bt bf : A -> M World unit) (l : list A) :
  (forall x et ef, same_but_placeholder et ef ->
     fst (bt x et) = fst (bf x ef)
     /\ same_but_placeholder (snd (bt x et)) (snd (bf x ef))) ->
  forall et ef, same_but_placeholder et ef ->
    fst (range l bt et) = fst (range l bf ef)
    /\ same_but_placeholder (snd (range l bt et)) (snd (range l bf ef)).
Proof.
  intros Hbody. induction l as [|x l IH]; intros et ef R; simpl.
  - split; [reflexivity | exact R].
  - unfold bind. destruct (Hbody x et ef R) as [H1 H2].
    destruct (bt x et) as [[[]|] et1]; destruct (bf x ef) as [[[]|] ef1];
      simpl in *; try discriminate.
    + apply IH. exact H2.
    + split; [reflexivity | exact H2].
Qed.

Lemma per_repo_flag (threshold : time.Duration) (repo : object)
    (et ef : Env World) :
  same_but_placeholder et ef ->
  fst (per_repo execute time_Now time_Parse b threshold true repo et)
  = fst (per_repo execute time_Now time_Parse b threshold false repo ef)
  /\ same_but_placeholder
       (snd (per_repo execute time_Now time_Parse b threshold true repo et))
       (snd (per_repo execute time_Now time_Parse b threshold false repo ef)).
Proof.
  intros (Hw & Hs & Ho).
  destruct (index repo "slug") as [[| |slug| |]|] eqn:Hslug;
    try (unfold per_repo, assert_string, bind, panic; rewrite Hslug; simpl;
         split; [reflexivity | same_env]).
  destruct (execute (world ef) (branches_request b slug)) as [w r] eqn:Hexec.
  rewrite (per_repo_eq threshold false repo slug ef w r Hslug Hexec).
  rewrite <- Hw in Hexec.
  rewrite (per_repo_eq threshold true repo slug et w r Hslug Hexec).
  destruct r as [resp|err].
  - destruct (StatusCode resp =? 200).
    + apply range_flag.
      * intros x e1 e2 R. apply per_branch_flag, R.
      * same_env.
    + split; [reflexivity | unfold printed; same_env].
  - split; [reflexivity | unfold printed; same_env].
Qed.

(** The delete flag changes nothing but the console, and there only the
    lines of line 144: the two runs return alike, leave the service in the
    same state and send the same requests. *)
Theorem ListStaleBranches_delete_flag_only_prints
    (threshold : time.Duration) (env : Env World) :
  let rt := ListStaleBranches execute time_Now time_Parse b threshold true env in
  let rf := ListStaleBranches execute time_Now time_Parse b threshold false env in
  fst rt = fst rf
  /\ world (snd rt) = world (snd rf)
  /\ sent (snd rt) = sent (snd rf)
  /\ without_placeholder (stdout (snd rt)) = without_placeholder (stdout (snd rf)).
Proof.
  cbv zeta.
  destruct (execute (world env) (repositories_request b)) as [w r] eqn:Hexec.
  assert (Hcase : fetch_failed r \/ exists resp, r = inl resp /\ StatusCode resp = 200).
  { destruct r as [resp|err]; simpl; [|auto].
    destruct (Z.eq_dec (StatusCode resp) 200); eauto. }
  destruct Hcase as [Hfail|(resp & -> & H200)].
  - unfold ListStaleBranches, FetchRepositories, resty, fmt_Printf, bind, ret.
    fold (repositories_request b). rewrite Hexec.
    destruct r as [resp|err]; simpl in *.
    + destruct (Z.eqb_spec (StatusCode resp) 200); [contradiction|].
      simpl. repeat split.
    + repeat split.
  - rewrite !(ListStaleBranches_listed threshold _ env w resp Hexec H200).
    apply (range_flag _ _ (Result resp)).
    + intros x et ef R. apply per_repo_flag, R.
    + repeat split.
Qed.

(** *** Without the flag *)

Lemma appended_refl P (env : Env World) : appended P env env.
Proof. exists []. rewrite app_nil_r. split; [reflexivity | constructor]. Qed.

Lemma appended_trans P (e0 e1 e2 : Env World) :
  appended P e0 e1 -> appended P e1 e2 -> appended P e0 e2.
Proof.
  intros (l1 & E1 & F1) (l2 & E2 & F2). exists (l1 ++ l2).
  rewrite E2, E1, app_assoc. split; [reflexivity | apply Forall_app; auto].
Qed.

Lemma range_appended {A} P (body : A -> M World unit) (l : list A) :
  (forall x env, appended P env (snd (body x env))) ->
  forall env, appended P env (snd (range l body env)).
Proof.
  intros Hbody. induction l as [|x l IH]; intros env; simpl.
  - apply appended_refl.
  - unfold bind. specialize (Hbody x env).
    destruct (body x env) as [[[]|] env1]; simpl in *; [|exact Hbody].
    eapply appended_trans; [exact Hbody | apply IH].
Qed.

Lemma per_branch_no_placeholder (threshold : time.Duration) (repoSlug : string)
    (branch : object) (env : Env World) :
  appended not_placeholder env
    (snd (per_branch time_Now time_Parse threshold false repoSlug branch env)).
Proof.
  unfold per_branch, bind.
  pose proof (CheckIfStale_stdout time_Now time_Parse branch threshold env)
    as Ho.
  destruct (CheckIfStale time_Now time_Parse branch threshold env)
    as [[[isStale age]|] env1]; simpl in *.
  - destruct isStale; simpl.
    + eexists. split; [rewrite Ho; reflexivity|].
      constructor; [discriminate | constructor].
    + exists []. rewrite app_nil_r. split; [exact Ho | constructor].
  - exists []. rewrite app_nil_r. split; [exact Ho | constructor].
Qed.

Lemma per_repo_no_placeholder (threshold : time.Duration) (repo : object)
    (env : Env World) :
  appended not_placeholder env
    (snd (per_repo execute time_Now time_Parse b threshold false repo env)).
Proof.
  destruct (index repo "slug") as [[| |slug| |]|] eqn:Hslug;
    try (unfold per_repo, assert_string, bind, panic; rewrite Hslug; simpl;
         apply appended_refl).
  destruct (execute (world env) (branches_request b slug)) as [w r] eqn:Hexec.
  rewrite (per_repo_eq threshold false repo slug env w r Hslug Hexec).
  set (env1 := {| world := w; sent := _; stdout := _ |}).
  assert (H1 : appended not_placeholder env env1).
  { eexists. split; [reflexivity|]. constructor; [discriminate | constructor]. }
  assert (H2 : forall line, format line <> "Blaaa" ->
                 appended not_placeholder env (printed env1 [line])).
  { intros line Hl. eapply appended_trans; [exact H1|].
    eexists. split; [reflexivity|]. constructor; [exact Hl | constructor]. }
  destruct r as [resp|err].
  - destruct (StatusCode resp =? 200).
    + eapply appended_trans; [exact H1|].
      apply range_appended. intros x e. apply per_branch_no_placeholder.
    + apply H2. discriminate.
  - apply H2. discriminate.
Qed.

Lemma ListStaleBranches_no_placeholder
    (threshold : time.Duration) (env : Env World) :
  appended not_placeholder env
    (snd (ListStaleBranches execute time_Now time_Parse b threshold false env)).
Proof.
  destruct (execute (world env) (repositories_request b)) as [w r] eqn:Hexec.
  assert (Hcase : fetch_failed r \/ exists resp, r = inl resp /\ StatusCode resp = 200).
  { destruct r as [resp|err]; simpl; [|auto].
    destruct (Z.eq_dec (StatusCode resp) 200); eauto. }
  destruct Hcase as [Hfail|(resp & -> & H200)].
  - destruct (ListStaleBranches_not_listed threshold false env w r Hexec Hfail)
      as (line & -> & Hl).
    eexists. split; [reflexivity|]. constructor; [|constructor].
    unfold not_placeholder. rewrite Hl. discriminate.
  - rewrite (ListStaleBranches_listed threshold false env w resp Hexec H200).
    set (env1 := {| world := w; sent := _; stdout := _ |}).
    apply (appended_trans _ env env1).
    { exists []. rewrite app_nil_r. split; [reflexivity | constructor]. }
    apply range_appended. intros x e. apply per_repo_no_placeholder.
Qed.

(** *** Records that pass the type assertions *)

Lemma per_branch_returns (threshold : time.Duration) (delete : bool)
    (repoSlug : string) (branch : object) (env : Env World) :
  has_date branch ->
  fst (per_branch time_Now time_Parse threshold delete repoSlug branch env)
  = Returns tt.
Proof.
  intros (target & str & Ht & Hd).
  unfold per_branch, CheckIfStale, time_Since, fmt_Printf, assert_map,
    assert_string, bind, ret.
  rewrite Ht. simpl. rewrite Hd. simpl.
  destruct (time_Parse str); simpl; [|reflexivity].
  destruct (time_Now (world env)) as [w now]. simpl.
  destruct (staleness _ threshold) as [[] age]; simpl; [|reflexivity].
  destruct delete; reflexivity.
Qed.

Lemma range_returns {A} (body : A -> M World unit) (l : list A) :
  Forall (fun x => forall env, fst (body x env) = Returns tt) l ->
  forall env, fst (range l body env) = Returns tt.
Proof.
  induction 1 as [|x l Hx _ IH]; intros env; simpl; [reflexivity|].
  unfold bind. specialize (Hx env).
  destruct (body x env) as [[[]|] env1]; simpl in *; [apply IH | discriminate].
Qed.

(** When every repository listed has a string "slug" and every branch
    listed has a "target" object with a string "date", the run returns: no
    type assertion fails, whatever the statuses and the dates are. *)
Theorem ListStaleBranches_returns_on_well_formed_records
    (threshold : time.Duration) (delete : bool) (env : Env World) :
  (forall w w' resp,
      execute w (repositories_request b) = (w', inl resp) ->
      StatusCode resp = 200 -> Forall has_slug (Result resp)) ->
  (forall w w' slug resp,
      execute w (branches_request b slug) = (w', inl resp) ->
      StatusCode resp = 200 -> Forall has_date (Result resp)) ->
  fst (ListStaleBranches execute time_Now time_Parse b threshold delete env)
  = Returns tt.
Proof.
  intros Hrepos Hbranches.
  destruct (execute (world env) (repositories_request b)) as [w r] eqn:Hexec.
  assert (Hcase : fetch_failed r \/ exists resp, r = inl resp /\ StatusCode resp = 200).
  { destruct r as [resp|err]; simpl; [|auto].
    destruct (Z.eq_dec (StatusCode resp) 200); eauto. }
  destruct Hcase as [Hfail|(resp & -> & H200)].
  - destruct (ListStaleBranches_not_listed threshold delete env w r Hexec Hfail)
      as (line & -> & _).
    reflexivity.
  - rewrite (ListStaleBranches_listed threshold delete env w resp Hexec H200).
    apply range_returns.
    eapply Forall_impl; [exact (Hrepos _ _ _ Hexec H200)|].
    intros repo (slug & Hslug) env1.
    destruct (execute (world env1) (branches_request b slug)) as [w1 r1] eqn:E1.
    rewrite (per_repo_eq threshold delete repo slug env1 w1 r1 Hslug E1).
    destruct r1 as [resp1|err1]; [|reflexivity].
    destruct (Z.eqb_spec (StatusCode resp1) 200) as [H1|H1]; [|reflexivity].
    apply range_returns.
    eapply Forall_impl; [exact (Hbranches _ _ _ _ E1 H1)|].
    intros branch Hd env2. apply per_branch_returns, Hd.
Qed.

End Orchestrator.

(** ** The staleness test as an order on durations *)

Module Order.

Import Rnd Rounding Monotone Mirror Staleness.

Lemma compare_normal (m1 m2 : positive) (e1 e2 : Z) :
  Zpos (digits2_pos m1) = 53 -> Zpos (digits2_pos m2) = 53 ->
  -1000 <= e1 <= 1000 -> -1000 <= e2 <= 1000 ->
  match e1 ?= e2 with
  | Lt => Lt
  | Gt => Gt
  | Eq => Pos.compare_cont Eq m1 m2
  end
  = (Zpos m1 * 2 ^ (e1 + 1000) ?= Zpos m2 * 2 ^ (e2 + 1000)).
Proof.
  intros D1 D2 R1 R2.
  pose proof (digits2_pos_bounds m1) as B1. rewrite D1 in B1.
  pose proof (digits2_pos_bounds m2) as B2. rewrite D2 in B2.
  change (53 - 1) with 52 in B1, B2.
  pose proof (scale_pos e1 ltac:(lia)). pose proof (scale_pos e2 ltac:(lia)).
  destruct (Z.compare_spec e1 e2) as [E|E|E].
  - subst e2. change (Pos.compare_cont Eq m1 m2) with (Pos.compare m1 m2).
    rewrite Pos2Z.inj_compare.
    destruct (Z.compare_spec (Zpos m1) (Zpos m2)) as [C|C|C]; symmetry.
    + apply Z.compare_eq_iff. rewrite C. reflexivity.
    + apply Z.compare_lt_iff. nia.
    + apply Z.compare_gt_iff. nia.
  - pose proof (scale_lt e1 e2 ltac:(lia) E).
    symmetry. apply Z.compare_lt_iff. nia.
  - pose proof (scale_lt e2 e1 ltac:(lia) E).
    symmetry. apply Z.compare_gt_iff. nia.
Qed.

Lemma signed_value_sign (s : bool) (m : positive) (e : Z) :
  -1000 <= e ->
  if s then signed_value (S754_finite s m e) < 0
  else 0 < signed_value (S754_finite s m e).
Proof.
  intros He. pose proof (scale_pos e He). destruct s; simpl signed_value; nia.
Qed.

(** On zeros and normal floats the comparison of floats is the comparison
    of their values. *)
Lemma compare_signed (a b : spec_float) :
  ordinary a -> ordinary b ->
  SFcompare a b = Some (signed_value a ?= signed_value b).
Proof.
  intros Oa Ob.
  destruct a as [sa| | |sa ma ea]; try contradiction;
    destruct b as [sb| | |sb mb eb]; try contradiction.
  - reflexivity.
  - destruct Ob as [_ Rb]. pose proof (signed_value_sign sb mb eb ltac:(lia)) as S.
    simpl SFcompare. change (signed_value (S754_zero sa)) with 0.
    f_equal. symmetry. destruct sb.
    + apply Z.compare_gt_iff. exact S.
    + apply Z.compare_lt_iff. exact S.
  - destruct Oa as [_ Ra]. pose proof (signed_value_sign sa ma ea ltac:(lia)) as S.
    simpl SFcompare. change (signed_value (S754_zero sb)) with 0.
    f_equal. symmetry. destruct sa.
    + apply Z.compare_lt_iff. exact S.
    + apply Z.compare_gt_iff. exact S.
  - destruct Oa as [Da Ra]. destruct Ob as [Db Rb].
    pose proof (signed_value_sign sa ma ea ltac:(lia)) as Sa.
    pose proof (signed_value_sign sb mb eb ltac:(lia)) as Sb.
    pose proof (compare_normal ma mb ea eb Da Db Ra Rb) as C.
    destruct sa, sb; simpl SFcompare; f_equal.
    + unfold signed_value.
      rewrite Z.compare_opp,
        (Z.compare_antisym (Zpos ma * 2 ^ (ea + 1000)) (Zpos mb * 2 ^ (eb + 1000))),
        <- C.
      destruct (ea ?= eb); reflexivity.
    + symmetry. apply Z.compare_lt_iff. lia.
    + symmetry. apply Z.compare_gt_iff. lia.
    + exact C.
Qed.

Lemma nonneg_ordinary (B : Z) (f : spec_float) :
  B <= 1000 -> nonneg B f -> ordinary f /\ ordinary (SFopp f).
Proof.
  intros HB [->|N]; [simpl; auto|].
  destruct f as [| | |s m e]; try contradiction.
  destruct N as (-> & D & R). simpl. repeat split; lia || exact D.
Qed.

Lemma day_count_ordinary (d : time.Duration) :
  in_int64 d -> ordinary (day_count d).
Proof.
  intros Hd. apply int64_range in Hd.
  destruct (Z_lt_le_dec d 0) as [L|L].
  - replace d with (- (- d)) by lia. rewrite (day_count_opp (- d)) by lia.
    apply (nonneg_ordinary 224); [lia|]. apply day_count_is_nonneg. lia.
  - apply (nonneg_ordinary 224); [lia|]. apply day_count_is_nonneg. lia.
Qed.

Lemma day_count_value_mono (d d' : time.Duration) :
  in_int64 d -> in_int64 d' -> d <= d' ->
  signed_value (day_count d) <= signed_value (day_count d').
Proof.
  intros Hd Hd' Hle.
  pose proof (compare_signed _ _ (day_count_ordinary d Hd)
                (day_count_ordinary d' Hd')) as C.
  apply int64_range in Hd, Hd'.
  pose proof (day_count_mono_int64 d d' ltac:(lia) Hle ltac:(lia)) as [F|F];
    rewrite F in C; injection C as C'; symmetry in C'.
  - apply Z.compare_lt_iff in C'. apply Z.lt_le_incl. exact C'.
  - apply Z.compare_eq_iff in C'. rewrite C'. apply Z.le_refl.
Qed.

Lemma stale_iff_value (since threshold : time.Duration) :
  in_int64 since -> in_int64 threshold ->
  (fst (staleness since threshold) = true <->
   signed_value (day_count threshold) < signed_value (day_count since)).
Proof.
  intros Hs Ht. rewrite staleness_eq. unfold F64.gt.
  rewrite (compare_signed _ _ (day_count_ordinary since Hs)
             (day_count_ordinary threshold Ht)).
  destruct (Z.compare_spec (signed_value (day_count since))
              (signed_value (day_count threshold))); simpl;
    split; try discriminate; try lia; reflexivity.
Qed.

(** Staleness is monotone: a branch that is stale stays stale as the
    elapsed time grows and as the threshold shrinks. *)
Theorem staleness_monotone (since since' threshold threshold' : time.Duration) :
  in_int64 since -> in_int64 since' -> in_int64 threshold -> in_int64 threshold' ->
  since <= since' -> threshold' <= threshold ->
  fst (staleness since threshold) = true ->
  fst (staleness since' threshold') = true.
Proof.
  intros Hs Hs' Ht Ht' Ls Lt St.
  apply stale_iff_value in St; [|assumption..].
  apply stale_iff_value; [assumption..|].
  pose proof (day_count_value_mono since since' Hs Hs' Ls).
  pose proof (day_count_value_mono threshold' threshold Ht' Ht Lt).
  lia.
Qed.

Lemma sval_injective (a b : spec_float) :
  nonneg 1000 a -> nonneg 1000 b -> sval a = sval b -> a = b.
Proof.
  intros Na Nb E.
  pose proof (nonneg_ordinary 1000 a ltac:(lia) Na) as [Oa _].
  pose proof (nonneg_ordinary 1000 b ltac:(lia) Nb) as [Ob _].
  destruct Na as [->|Na]; destruct Nb as [->|Nb].
  - reflexivity.
  - pose proof (sval_pos 1000 b ltac:(lia) Nb). simpl in E. lia.
  - pose proof (sval_pos 1000 a ltac:(lia) Na). simpl in E. lia.
  - destruct a as [| | |sa ma ea]; try contradiction.
    destruct b as [| | |sb mb eb]; try contradiction.
    destruct Na as (-> & Da & Ra). destruct Nb as (-> & Db & Rb).
    pose proof (compare_normal ma mb ea eb Da Db Ra Rb) as C.
    unfold sval in E. rewrite E, Z.compare_refl in C.
    destruct (Z.compare_spec ea eb) as [Ee|Ee|Ee]; try discriminate C.
    subst eb. change (Pos.compare_cont Eq ma mb) with (Pos.compare ma mb) in C.
    apply Pos.compare_eq in C. subst mb. reflexivity.
Qed.

Lemma day_count_days (k : Z) :
  0 <= k <= 106751 -> day_count (days k) = F64.of_int k.
Proof.
  intros Hk.
  assert (Hd : 0 <= days k <= 2 ^ 63).
  { unfold days. change time.Hour with 3600000000000. lia. }
  destruct (of_int_nonneg k ltac:(lia)) as [Nk Vk].
  apply sval_injective.
  - eapply nonneg_weaken; [|apply day_count_is_nonneg; exact Hd]. lia.
  - eapply nonneg_weaken; [|exact Nk]. lia.
  - rewrite Vk. apply day_count_whole_days. exact Hk.
Qed.

(** With a threshold of [k] whole days the test is right outside the day
    that follows the threshold: an age of at most [k] days is not stale, an
    age of [k + 1] days or more is. *)
Theorem staleness_whole_day_threshold (k : Z) (since : time.Duration) :
  0 <= k < 106751 -> in_int64 since ->
  (since <= days k -> fst (staleness since (days k)) = false)
  /\ (days (k + 1) <= since -> fst (staleness since (days k)) = true).
Proof.
  intros Hk Hs.
  assert (Hr : forall j, 0 <= j <= 106751 -> in_int64 (days j)).
  { intros j Hj. unfold in_int64, days, time.minDuration, time.maxDuration.
    change time.Hour with 3600000000000. lia. }
  split.
  - intros Hle. destruct (fst (staleness since (days k))) eqn:St; [|reflexivity].
    apply stale_only_if_older in St; [lia | exact Hs | apply Hr; lia].
  - intros Hge.
    assert (Hnext : fst (staleness (days (k + 1)) (days k)) = true).
    { rewrite staleness_eq, !day_count_days by lia.
      replace (F64.gt (F64.of_int (k + 1)) (F64.of_int k)) with true;
        [reflexivity|].
      symmetry. apply gt_sval.
      + eapply nonneg_weaken; [|apply (of_int_nonneg (k + 1)); lia]. lia.
      + eapply nonneg_weaken; [|apply (of_int_nonneg k); lia]. lia.
      + destruct (of_int_nonneg k ltac:(lia)) as [_ ->].
        destruct (of_int_nonneg (k + 1) ltac:(lia)) as [_ ->].
        pose proof scale_1000_pos. lia. }
    apply stale_iff_value in Hnext; [|apply Hr; lia..].
    apply stale_iff_value; [exact Hs | apply Hr; lia|].
    pose proof (day_count_value_mono (days (k + 1)) since
                  (Hr (k + 1) ltac:(lia)) Hs Hge).
    lia.
Qed.

End Order.

(** ** What is reported for a branch (lines 137-146) *)

Section Report.

Import Rnd Rounding Monotone Mirror Staleness.

Context {World : Type}.
Variable time_Now : World -> World * time.Time.
Variable time_Parse : string -> option time.Time.


(** A branch whose date does not parse is passed over in silence: nothing
    is printed for it, the clock is not read, and the loop goes on. *)
Theorem per_branch_skips_unparsable_date
    (threshold : time.Duration) (delete : bool) (repoSlug : string)
    (branch target : object) (commitDateStr : string) (env : Env World) :
  index branch "target" = Some (VObject target) ->
  index target "date" = Some (VString commitDateStr) ->
  time_Parse commitDateStr = None ->
  per_branch time_Now time_Parse threshold delete repoSlug branch env
  = (Returns tt, env).
Proof.
  intros Ht Hd Hp.
  unfold per_branch, CheckIfStale, assert_map, assert_string, bind, ret.
  rewrite Ht. simpl. rewrite Hd. simpl. rewrite Hp. reflexivity.
Qed.


End Report.

(** ** [main] *)

Section MainProperties.

Context {World : Type}.
Variable execute : World -> Request -> World * (Response + error).
Variable time_Now : World -> World * time.Time.
Variable time_Parse : string -> option time.Time.
Variable godotenv_Load : World -> World * option error.
Variable os_Getenv : World -> string -> string.

Lemma main_eq (env : Env World) (w : World) (err : option error) :
  godotenv_Load (world env) = (w, err) ->
  let env1 := {| world := w; sent := sent env;
                 stdout := stdout env ++ dotenv_notice err |} in
  main execute time_Now time_Parse godotenv_Load os_Getenv env
  = if String.eqb (os_Getenv w "BITBUCKET_TOKEN") "" then
      (Returns tt,
       printed env1
         [Printf "Error: BITBUCKET_TOKEN environment variable is not set\n" []])
    else if String.eqb (os_Getenv w "BITBUCKET_WORKSPACE") "" then
      (Returns tt,
       printed env1
         [Printf "Error: BITBUCKET_WORKSPACE environment variable is not set\n" []])
    else
      ListStaleBranches execute time_Now time_Parse
        (NewBitbucketClient (os_Getenv w "BITBUCKET_WORKSPACE")
                            (os_Getenv w "BITBUCKET_TOKEN"))
        main_threshold false env1.
Proof.
  intros Hload. unfold main, load_dotenv, getenv, fmt_Println, fmt_Printf,
    bind at 1 2 3 4, ret.
  rewrite Hload.
  destruct err as [e|]; cbn [world sent stdout dotenv_notice].
  - destruct (String.eqb (os_Getenv w "BITBUCKET_TOKEN") ""); [reflexivity|].
    cbn [world].
    destruct (String.eqb (os_Getenv w "BITBUCKET_WORKSPACE") ""); reflexivity.
  - rewrite app_nil_r.
    destruct (String.eqb (os_Getenv w "BITBUCKET_TOKEN") ""); [reflexivity|].
    cbn [world].
    destruct (String.eqb (os_Getenv w "BITBUCKET_WORKSPACE") ""); reflexivity.
Qed.

(** Without a token or without a workspace [main] prints which one is
    missing and returns: nothing is sent.  The token is looked at first. *)
Theorem main_without_credentials (env : Env World) (w : World) (err : option error) :
  godotenv_Load (world env) = (w, err) ->
  os_Getenv w "BITBUCKET_TOKEN" = "" \/ os_Getenv w "BITBUCKET_WORKSPACE" = "" ->
  main execute time_Now time_Parse godotenv_Load os_Getenv env
  = (Returns tt,
     {| world := w; sent := sent env;
        stdout := stdout env ++ dotenv_notice err ++
          [Printf (if String.eqb (os_Getenv w "BITBUCKET_TOKEN") ""
                   then "Error: BITBUCKET_TOKEN environment variable is not set\n"
                   else "Error: BITBUCKET_WORKSPACE environment variable is not set\n")
                  []] |}).
Proof.
  intros Hload Hmissing. rewrite (main_eq env w err Hload).
  unfold printed. cbn [world sent stdout].
  destruct (String.eqb_spec (os_Getenv w "BITBUCKET_TOKEN") "") as [E|E].
  - rewrite <- app_assoc. reflexivity.
  - destruct Hmissing as [H|H]; [contradiction|].
    rewrite H. simpl String.eqb. cbv iota. rewrite <- app_assoc. reflexivity.
Qed.

(** With both variables set [main] goes on whether or not the [.env] file
    could be loaded, and what it sends is addressed with the environment:
    a GET for the repositories of the workspace of the environment at
    api.bitbucket.org, then GETs for the branches of repositories of that
    workspace, all with the token of the environment. *)
Theorem main_requests (env : Env World) (w : World) (err : option error) :
  godotenv_Load (world env) = (w, err) ->
  os_Getenv w "BITBUCKET_TOKEN" <> "" ->
  os_Getenv w "BITBUCKET_WORKSPACE" <> "" ->
  let token := os_Getenv w "BITBUCKET_TOKEN" in
  let workspace := os_Getenv w "BITBUCKET_WORKSPACE" in
  exists slugs,
    sent (snd (main execute time_Now time_Parse godotenv_Load os_Getenv env))
    = sent env ++
      {| Method := GET;
         URL := "https://api.bitbucket.org/2.0/repositories/" +:+ workspace;
         Token := token |}
      :: map (fun slug =>
                {| Method := GET;
                   URL := "https://api.bitbucket.org/2.0/repositories/"
                          +:+ workspace +:+ "/" +:+ slug +:+ "/refs/branches";
                   Token := token |})
             slugs.
Proof.
  intros Hload Htoken Hworkspace token workspace.
  rewrite (main_eq env w err Hload).
  apply String.eqb_neq in Htoken, Hworkspace. rewrite Htoken, Hworkspace.
  set (client := NewBitbucketClient _ _).
  set (env1 := {| world := w; sent := sent env;
                  stdout := stdout env ++ dotenv_notice err |}).
  change (exists slugs,
            sent (snd (ListStaleBranches execute time_Now time_Parse client
                         main_threshold false env1))
            = sent env1 ++ repositories_request client
                           :: map (branches_request client) slugs).
  destruct (execute (world env1) (repositories_request client)) as [w1 r] eqn:Hexec.
  assert (Hcase : fetch_failed r \/ exists resp, r = inl resp /\ StatusCode resp = 200).
  { destruct r as [resp|e]; simpl; [|auto].
    destruct (Z.eq_dec (StatusCode resp) 200); eauto. }
  destruct Hcase as [Hfail|(resp & -> & H200)].
  - destruct (ListStaleBranches_not_listed execute time_Now time_Parse client
                main_threshold false env1 w1 r Hexec Hfail) as (line & -> & _).
    exists []. reflexivity.
  - rewrite (ListStaleBranches_listed execute time_Now time_Parse client
               main_threshold false env1 w1 resp Hexec H200).
    destruct (range_per_repo_requests execute time_Now time_Parse client
                main_threshold false (Result resp)
                {| world := w1; sent := sent env1 ++ [repositories_request client];
                   stdout := stdout env1 |})
      as (processed & slugs & S1 & _).
    exists slugs. cbv zeta in S1. rewrite S1. cbn [sent].
    rewrite <- app_assoc. reflexivity.
Qed.

(** Whatever the environment and the service do, [main] sends nothing but
    GET requests and never prints the line of line 144. *)
Theorem main_only_reads (env : Env World) :
  let res := main execute time_Now time_Parse godotenv_Load os_Getenv env in
  only_GET_since env (snd res)
  /\ exists lines,
       stdout (snd res) = stdout env ++ lines
       /\ Forall (fun p => format p <> "Blaaa") lines.
Proof.
  cbv zeta.
  destruct (godotenv_Load (world env)) as [w err] eqn:Hload.
  rewrite (main_eq env w err Hload).
  set (env1 := {| world := w; sent := sent env;
                  stdout := stdout env ++ dotenv_notice err |}).
  assert (Hn : Forall (fun p => format p <> "Blaaa") (dotenv_notice err)).
  { destruct err; simpl; repeat constructor. discriminate. }
  destruct (String.eqb (os_Getenv w "BITBUCKET_TOKEN") "");
    [|destruct (String.eqb (os_Getenv w "BITBUCKET_WORKSPACE") "")].
  - split.
    + exists []. rewrite app_nil_r. split; [reflexivity | constructor].
    + eexists. split; [simpl; rewrite <- app_assoc; reflexivity|].
      apply Forall_app. split; [exact Hn|]. repeat constructor. discriminate.
  - split.
    + exists []. rewrite app_nil_r. split; [reflexivity | constructor].
    + eexists. split; [simpl; rewrite <- app_assoc; reflexivity|].
      apply Forall_app. split; [exact Hn|]. repeat constructor. discriminate.
  - split.
    + apply (ListStaleBranches_only_GET execute time_Now time_Parse _
               main_threshold false env1).
    + destruct (ListStaleBranches_no_placeholder execute time_Now time_Parse
                  (NewBitbucketClient (os_Getenv w "BITBUCKET_WORKSPACE")
                                      (os_Getenv w "BITBUCKET_TOKEN"))
                  main_threshold env1) as (lines & Hl & Fl).
      exists (dotenv_notice err ++ lines).
      split; [rewrite Hl; simpl; rewrite <- app_assoc; reflexivity|].
      apply Forall_app. split; assumption.
Qed.

End MainProperties.

(** ** Instances of the further properties *)

Lemma FetchRepositories_outcome_witness :
  exists repos err,
    FetchRepositories (Scenario.execute false) Scenario.client Scenario.start
    = (Returns (repos, err),
       {| world := tt; sent := [repositories_request Scenario.client];
          stdout := [] |})
    /\ (err = None <->
        exists resp, Scenario.answer false (repositories_request Scenario.client)
                     = inl resp /\ StatusCode resp = 200).
Proof.
  destruct (FetchRepositories_outcome (Scenario.execute false) Scenario.client
              Scenario.start tt
              (Scenario.answer false (repositories_request Scenario.client))
              eq_refl)
    as (repos & err & E & Hiff & _).
  exists repos, err. split; [exact E | exact Hiff].
Defined.

Lemma FetchBranches_outcome_witness :
  exists branches err,
    FetchBranches (Scenario.execute false) Scenario.client "repo-z" Scenario.start
    = (Returns (branches, err),
       {| world := tt; sent := [branches_request Scenario.client "repo-z"];
          stdout := [] |})
    /\ (err <> None -> branches = []).
Proof.
  destruct (FetchBranches_outcome (Scenario.execute false) Scenario.client
              "repo-z" Scenario.start tt
              (Scenario.answer false (branches_request Scenario.client "repo-z"))
              eq_refl)
    as (branches & err & E & _ & _ & Hnil & _).
  exists branches, err. split; [exact E | exact Hnil].
Defined.

Lemma per_repo_panics_without_slug_witness :
  ~ has_slug Malformed.repo_without_slug
  /\ per_repo Malformed.execute Scenario.time_Now Scenario.time_Parse
       Scenario.client main_threshold false Malformed.repo_without_slug
       Scenario.start
     = (Panics, Scenario.start).
Proof.
  assert (H : ~ has_slug Malformed.repo_without_slug).
  { intros (slug & H). vm_compute in H. discriminate H. }
  split; [exact H|].
  exact (per_repo_panics_without_slug Malformed.execute Scenario.time_Now
           Scenario.time_Parse Scenario.client main_threshold false
           Malformed.repo_without_slug Scenario.start H).
Defined.

Lemma ListStaleBranches_stops_at_panic_witness :
  ListStaleBranches Malformed.execute Scenario.time_Now Scenario.time_Parse
    Scenario.client main_threshold false Scenario.start
  = (Panics,
     {| world := tt;
        sent := [repositories_request Scenario.client;
                 branches_request Scenario.client "repo-b"];
        stdout :=
          [Printf "Checking branches for repository: %s\n" [AString "repo-b"];
           Printf "Error fetching branches for repo %s: %v\n"
                  [AString "repo-b";
                   AError (Errorf "failed to fetch branches for repo %s: %s"
                                  ["repo-b"; "404 Not Found"])]] |}).
Proof.
  apply (ListStaleBranches_stops_at_panic Malformed.execute Scenario.time_Now
           Scenario.time_Parse Scenario.client main_threshold false
           Scenario.start
           {| world := tt;
              sent := [repositories_request Scenario.client;
                       branches_request Scenario.client "repo-b"];
              stdout :=
                [Printf "Checking branches for repository: %s\n" [AString "repo-b"];
                 Printf "Error fetching branches for repo %s: %v\n"
                        [AString "repo-b";
                         AError (Errorf "failed to fetch branches for repo %s: %s"
                                        ["repo-b"; "404 Not Found"])]] |}
           _ tt
           {| StatusCode := 200; Status := "200 OK";
              Result := [Scenario.repo "repo-b"; Malformed.repo_without_slug;
                         Scenario.repo "repo-a"] |}
           [Scenario.repo "repo-b"] [Scenario.repo "repo-a"]
           Malformed.repo_without_slug).
  - reflexivity.
  - reflexivity.
  - reflexivity.
  - reflexivity.
  - reflexivity.
Defined.

Lemma per_repo_stops_at_branch_without_date_witness :
  ~ has_date Malformed.branch_without_date
  /\ per_repo Malformed.execute Scenario.time_Now Scenario.time_Parse
       Scenario.client main_threshold false (Scenario.repo "repo-a")
       Scenario.start
     = (Panics,
        {| world := tt;
           sent := [branches_request Scenario.client "repo-a"];
           stdout :=
             [Printf "Checking branches for repository: %s\n"
                     [AString "repo-a"]] |}).
Proof.
  assert (H : ~ has_date Malformed.branch_without_date).
  { intros (target & date & H & _). vm_compute in H. discriminate H. }
  split; [exact H|].
  apply (per_repo_stops_at_branch_without_date Malformed.execute
           Scenario.time_Now Scenario.time_Parse Scenario.client main_threshold
           false (Scenario.repo "repo-a") Malformed.branch_without_date "repo-a"
           Scenario.start _ tt
           {| StatusCode := 200; Status := "200 OK";
              Result := [Scenario.branch "master" "2023-11-13T22:13:20Z";
                         Malformed.branch_without_date;
                         Scenario.branch "feature-x" "2023-04-28T22:13:20Z"] |}
           [Scenario.branch "master" "2023-11-13T22:13:20Z"]
           [Scenario.branch "feature-x" "2023-04-28T22:13:20Z"]).
  - reflexivity.
  - reflexivity.
  - reflexivity.
  - reflexivity.
  - reflexivity.
  - exact H.
Defined.

Lemma DeleteBranch_reports_only_success_witness :
  stdout (snd (DeleteBranch (Scenario.execute false) Scenario.client
                 "repo-a" "feature-x" Scenario.start))
  = [Printf "Branch %s deleted in repository %s\n"
            [AString "feature-x"; AString "repo-a"]]
  <-> ~ In "feature-x" protectedBranches
      /\ exists resp,
           Scenario.answer false
             (delete_request Scenario.client "repo-a" "feature-x") = inl resp
           /\ StatusCode resp = 204.
Proof.
  exact (proj1 (DeleteBranch_reports_only_success (Scenario.execute false)
                  Scenario.client "repo-a" "feature-x" Scenario.start tt
                  (Scenario.answer false
                     (delete_request Scenario.client "repo-a" "feature-x"))
                  eq_refl)).
Defined.

Lemma ListStaleBranches_requests_witness :
  exists processed slugs,
    sent (snd (ListStaleBranches (Scenario.execute true) Scenario.time_Now
                 Scenario.time_Parse Scenario.client main_threshold false
                 Scenario.start))
    = repositories_request Scenario.client
      :: map (branches_request Scenario.client) slugs
    /\ Forall2 (fun repo slug => index repo "slug" = Some (VString slug))
               processed slugs.
Proof.
  destruct (ListStaleBranches_requests (Scenario.execute true) Scenario.time_Now
              Scenario.time_Parse Scenario.client main_threshold false
              Scenario.start tt
              (Scenario.answer true (repositories_request Scenario.client))
              eq_refl)
    as (processed & slugs & E & F & _).
  exists processed, slugs. split; [exact E | exact F].
Defined.

Lemma Scenario_repositories_have_slugs (broken : bool) (w w' : unit)
    (resp : Response) :
  Scenario.execute broken w (repositories_request Scenario.client)
  = (w', inl resp) ->
  StatusCode resp = 200 -> Forall has_slug (Result resp).
Proof.
  intros H _. unfold Scenario.execute in H.
  injection H as _ <-. destruct broken; simpl Result;
    repeat constructor; eexists; reflexivity.
Qed.

Lemma Scenario_branches_have_dates (broken : bool) (w w' : unit)
    (slug : string) (resp : Response) :
  Scenario.execute broken w (branches_request Scenario.client slug)
  = (w', inl resp) ->
  StatusCode resp = 200 -> Forall has_date (Result resp).
Proof.
  intros H H200. unfold Scenario.execute in H. injection H as _ H.
  unfold Scenario.answer, Scenario.ok in H.
  cbn [Method URL branches_request] in H.
  assert (Hne : String.eqb (branches_url Scenario.client slug)
                  "https://api.bitbucket.org/2.0/repositories/acme" = false).
  { apply String.eqb_neq. intros E. unfold branches_url in E. simpl in E.
    discriminate E. }
  rewrite Hne in H.
  destruct (String.eqb (branches_url Scenario.client slug) _) in H.
  { injection H as <-. repeat constructor; eexists _, _; split; reflexivity. }
  destruct (String.eqb (branches_url Scenario.client slug) _) in H.
  { injection H as <-. repeat constructor; eexists _, _; split; reflexivity. }
  injection H as <-. simpl in H200. discriminate H200.
Qed.

Lemma ListStaleBranches_returns_on_well_formed_records_witness :
  fst (ListStaleBranches (Scenario.execute true) Scenario.time_Now
         Scenario.time_Parse Scenario.client main_threshold true Scenario.start)
  = Returns tt.
Proof.
  apply (ListStaleBranches_returns_on_well_formed_records
           (Scenario.execute true) Scenario.time_Now Scenario.time_Parse
           Scenario.client main_threshold true Scenario.start).
  - exact (Scenario_repositories_have_slugs true).
  - exact (Scenario_branches_have_dates true).
Defined.

Lemma staleness_monotone_witness :
  fst (staleness (days 95) (days 92)) = true
  /\ fst (staleness (days 200) main_threshold) = true.
Proof.
  assert (H : fst (staleness (days 95) (days 92)) = true) by (vm_compute; reflexivity).
  split; [exact H|].
  apply (Order.staleness_monotone (days 95) (days 200) (days 92) main_threshold).
  - vm_compute. split; discriminate.
  - vm_compute. split; discriminate.
  - vm_compute. split; discriminate.
  - vm_compute. split; discriminate.
  - vm_compute. discriminate.
  - vm_compute. discriminate.
  - exact H.
Defined.

Lemma staleness_whole_day_threshold_witness :
  fst (staleness (days 365) (days 365)) = false
  /\ fst (staleness (days 366 + 1) (days 365)) = true.
Proof.
  split.
  - apply (Order.staleness_whole_day_threshold 365 (days 365)).
    + lia.
    + vm_compute. split; discriminate.
    + vm_compute. discriminate.
  - apply (Order.staleness_whole_day_threshold 365 (days 366 + 1)).
    + lia.
    + vm_compute. split; discriminate.
    + vm_compute. discriminate.
Defined.

Lemma per_branch_skips_unparsable_date_witness :
  per_branch Scenario.time_Now Scenario.time_Parse main_threshold true "repo-a"
    (Scenario.branch "wip" "yesterday") Scenario.start
  = (Returns tt, Scenario.start).
Proof.
  exact (per_branch_skips_unparsable_date Scenario.time_Now Scenario.time_Parse
           main_threshold true "repo-a" (Scenario.branch "wip" "yesterday")
           {[ "date" := Some (VString "yesterday") ]} "yesterday"
           Scenario.start eq_refl eq_refl eq_refl).
Defined.


Lemma main_without_credentials_witness :
  main (Scenario.execute false) Scenario.time_Now Scenario.time_Parse
    Process.godotenv_Load Process.no_workspace Scenario.start
  = (Returns tt,
     {| world := tt; sent := [];
        stdout :=
          [Printf "Error loading .env file\n" [];
           Printf "Error: BITBUCKET_WORKSPACE environment variable is not set\n"
                  []] |}).
Proof.
  exact (main_without_credentials (Scenario.execute false) Scenario.time_Now
           Scenario.time_Parse Process.godotenv_Load Process.no_workspace
           Scenario.start tt
           (Some (TransportError "open .env: no such file or directory"))
           eq_refl (or_intror eq_refl)).
Defined.

Lemma main_requests_witness :
  exists slugs,
    sent (snd (main (Scenario.execute false) Scenario.time_Now Scenario.time_Parse
                 Process.godotenv_Load Process.configured Scenario.start))
    = {| Method := GET;
         URL := "https://api.bitbucket.org/2.0/repositories/acme";
         Token := "secret" |}
      :: map (fun slug =>
                {| Method := GET;
                   URL := "https://api.bitbucket.org/2.0/repositories/"
                          +:+ "acme" +:+ "/" +:+ slug +:+ "/refs/branches";
                   Token := "secret" |})
             slugs.
Proof.
  apply (main_requests (Scenario.execute false) Scenario.time_Now
           Scenario.time_Parse Process.godotenv_Load Process.configured
           Scenario.start tt
           (Some (TransportError "open .env: no such file or directory"))
           eq_refl).
  - discriminate.
  - discriminate.
Defined.
